(** * Javelin: [JX.Request] and [JX.Event]

    A shallow embedding of [src/Request.js]: the AJAX request wrapper
    ([JX.Request]) with its registry of in-flight requests, and the event
    object ([JX.Event]) with its key-code table.

    Conventions of the embedding.
    - JavaScript values are the inductive [jsval]; numbers are the integers
      ([Z]), which covers key codes, HTTP statuses, indices and the timeout
      sentinel.  Strings are sequences of code units below 256.
    - Objects that the code mutates through a reference (requests) live in a
      heap and are addressed by their index; the registry [JX.Request._xhr]
      holds such indices, with [None] for the holes that [delete] leaves.
    - Every call that leaves the file (the platform transport, the timer, the
      subscribers reached through [invoke], the Stratcom collaborators) is
      appended to a trace; the platform decides which of them throw. *)

From stdpp Require Import gmap strings list.
From Stdlib Require Import ZArith String Ascii DecimalString DecimalZ Lia.

Local Open Scope Z_scope.
Local Open Scope string_scope.

Set Warnings "-register-all".

(** ** JavaScript values *)

Inductive jsval : Type :=
| JUndefined
| JNull
| JBool (b : bool)
| JNum (z : Z)
| JStr (s : string)
| JArr (elems : list jsval)
| JObj (props : list (string * jsval)).

(** Property lists are kept in enumeration order ([for .. in]). *)
Definition obj : Type := list (string * jsval).

(** ToBoolean. *)
Definition truthy (v : jsval) : bool :=
  match v with
  | JUndefined | JNull => false
  | JBool b => b
  | JNum z => negb (Z.eqb z 0)
  | JStr s => negb (String.eqb s "")
  | JArr _ | JObj _ => true
  end.

(** [a || b] on values. *)
Definition js_or (a b : jsval) : jsval := if truthy a then a else b.

(** ToString of an integer number: its decimal digits.  (JavaScript turns
    to exponent notation from 1e21 on, far above every code, status and
    index met here.) *)
Definition number_to_string (z : Z) : string :=
  NilZero.string_of_int (Z.to_int z).

(** ToString; an array joins its elements with commas, [null] and
    [undefined] elements giving the empty string. *)
Fixpoint js_to_string (v : jsval) : string :=
  match v with
  | JUndefined => "undefined"
  | JNull => "null"
  | JBool true => "true"
  | JBool false => "false"
  | JNum z => number_to_string z
  | JStr s => s
  | JArr l =>
      let elem x :=
        match x with
        | JUndefined | JNull => ""
        | _ => js_to_string x
        end in
      (fix join (l : list jsval) : string :=
         match l with
         | [] => ""
         | [x] => elem x
         | x :: l' => elem x ++ "," ++ join l'
         end) l
  | JObj _ => "[object Object]"
  end.

(** Own-property lookup in a property list. *)
Fixpoint obj_get (o : obj) (k : string) : jsval :=
  match o with
  | [] => JUndefined
  | (k', v) :: o' => if String.eqb k' k then v else obj_get o' k
  end.

(** [o[k] = v]: an existing property keeps its place, a new one is
    enumerated last. *)
Fixpoint obj_set (o : obj) (k : string) (v : jsval) : obj :=
  match o with
  | [] => [(k, v)]
  | (k', v') :: o' =>
      if String.eqb k' k then (k', v) :: o' else (k', v') :: obj_set o' k v
  end.

(** ** Strings *)

(** [s.substring(n)]: the string without its first [n] code units. *)
Fixpoint string_drop (n : nat) (s : string) : string :=
  match n, s with
  | O, _ => s
  | S n', String _ s' => string_drop n' s'
  | S _, EmptyString => EmptyString
  end.

(** [s.indexOf(c) === -1] for a one-character [c]. *)
Fixpoint lacks_char (c : ascii) (s : string) : bool :=
  match s with
  | EmptyString => true
  | String c' s' => if Ascii.eqb c' c then false else lacks_char c s'
  end.

(** How often the code unit [c] occurs in [s]. *)
Fixpoint count_char (c : ascii) (s : string) : nat :=
  match s with
  | EmptyString => O
  | String c' s' =>
      if Ascii.eqb c' c then S (count_char c s') else count_char c s'
  end.

(** [parts.join(sep)]. *)
Fixpoint join (sep : string) (parts : list string) : string :=
  match parts with
  | [] => ""
  | [x] => x
  | x :: parts' => x ++ sep ++ join sep parts'
  end.

Definition hex_digit (n : N) : ascii :=
  match String.get (N.to_nat n) "0123456789ABCDEF" with
  | Some c => c
  | None => "0"%char
  end.

(** One escaped octet, [%XX]. *)
Definition percent (b : N) : string :=
  String "%" (String (hex_digit (b / 16)) (String (hex_digit (b mod 16)) "")).

(** The characters [encodeURIComponent] leaves alone. *)
Definition unreserved (c : ascii) : bool :=
  let n := N_of_ascii c in
  ((65 <=? n) && (n <=? 90) || (97 <=? n) && (n <=? 122)
   || (48 <=? n) && (n <=? 57))%N
  || negb (lacks_char c "-_.!~*'()").

(** [encodeURIComponent]: every other code unit is replaced by the escaped
    octets of its UTF-8 encoding, one octet below U+0080 and two from
    U+0080 to U+00FF. *)
Definition encode_unit (c : ascii) : string :=
  let n := N_of_ascii c in
  if unreserved c then String c ""
  else if (n <? 128)%N then percent n
  else percent (192 + n / 64) ++ percent (128 + n mod 64).

Fixpoint encodeURIComponent (s : string) : string :=
  match s with
  | EmptyString => ""
  | String c s' => encode_unit c ++ encodeURIComponent s'
  end.

(** [toUpperCase] on the letters whose capital is again a code unit below
    256 (and on the sharp s, which becomes two letters); the micro sign and
    the y with diaeresis, whose capitals lie outside, are left as they
    are. *)
Definition upper_unit (c : ascii) : string :=
  let n := N_of_ascii c in
  if ((97 <=? n) && (n <=? 122))%N then String (ascii_of_N (n - 32)) ""
  else if (n =? 223)%N then "SS"
  else if ((224 <=? n) && (n <=? 254) && negb (n =? 247))%N
       then String (ascii_of_N (n - 32)) ""
  else String c "".

Fixpoint toUpperCase (s : string) : string :=
  match s with
  | EmptyString => ""
  | String c s' => upper_unit c ++ toUpperCase s'
  end.

(** ** JX.Event *)

Module Event.

(** Calls into the native event. *)
Inductive native_call := StopPropagation | PreventDefault.

(** The native event behind a [JX.Event]: the fields the code reads and
    writes, whether the platform offers [stopPropagation] and
    [preventDefault], and the calls made to them so far. *)
Record RawEvent := mkRaw {
  cancelBubble : bool;
  returnValue : bool;
  stopPropagation : bool;
  preventDefault : bool;
  shiftKey : bool;
  keyCode : Z;
  native_calls : list native_call
}.

(** The properties of [JX.Event]; [target] and [nodes] hold opaque DOM
    references. *)
Record Event := mkEvent {
  rawEvent : option RawEvent;
  type : option string;
  target : option nat;
  data : option jsval;
  path : list string;
  stopped : bool;
  prevented : bool;
  nodes : list (string * nat)
}.

Definition setRawEvent (r : option RawEvent) (e : Event) : Event :=
  mkEvent r (type e) (target e) (data e) (path e) (stopped e)
    (prevented e) (nodes e).

Definition setStopped (b : bool) (e : Event) : Event :=
  mkEvent (rawEvent e) (type e) (target e) (data e) (path e) b
    (prevented e) (nodes e).

Definition setPrevented (b : bool) (e : Event) : Event :=
  mkEvent (rawEvent e) (type e) (target e) (data e) (path e) (stopped e)
    b (nodes e).

(** [r.cancelBubble = true; r.stopPropagation && r.stopPropagation()]. *)
Definition raw_stop (r : RawEvent) : RawEvent :=
  mkRaw true (returnValue r) (stopPropagation r) (preventDefault r)
    (shiftKey r) (keyCode r)
    (if stopPropagation r then native_calls r ++ [StopPropagation]
     else native_calls r).

(** [r.returnValue = false; r.preventDefault && r.preventDefault()]. *)
Definition raw_prevent (r : RawEvent) : RawEvent :=
  mkRaw (cancelBubble r) false (stopPropagation r) (preventDefault r)
    (shiftKey r) (keyCode r)
    (if preventDefault r then native_calls r ++ [PreventDefault]
     else native_calls r).

(** A method takes the receiver and gives it back updated; [stop],
    [prevent] and [kill] all end in [return this], so the value they return
    is the receiver itself. *)
Definition stop (this : Event) : Event :=
  let this :=
    match rawEvent this with
    | Some r => setRawEvent (Some (raw_stop r)) this
    | None => this
    end in
  setStopped true this.

Definition prevent (this : Event) : Event :=
  let this :=
    match rawEvent this with
    | Some r => setRawEvent (Some (raw_prevent r)) this
    | None => this
    end in
  setPrevented true this.

Definition kill (this : Event) : Event :=
  let this := prevent this in
  let this := stop this in
  this.

(** [JX.Event._keymap]: property names are the decimal key codes. *)
Definition _keymap : gmap string jsval :=
  list_to_map
    [ ("8", JStr "delete"); ("9", JStr "tab"); ("13", JStr "return");
      ("27", JStr "esc"); ("37", JStr "left"); ("38", JStr "up");
      ("39", JStr "right"); ("40", JStr "down");
      ("63232", JNum 38); ("63233", JNum 40);
      ("62234", JNum 37); ("62235", JNum 39) ].

(** [km[c]]: the key is converted to a property name. *)
Definition keymap_get (km : gmap string jsval) (c : jsval) : jsval :=
  default JUndefined (km !! js_to_string c).

(** The loop of [getSpecialKey],
    [do { c = km[c] || null; } while (c && km[c])].
    The source puts no bound on it, so the embedding counts the executions
    of the body: [None] means the loop is still running after [fuel] of
    them. *)
Fixpoint resolve (fuel : nat) (km : gmap string jsval) (c : jsval)
  : option jsval :=
  match fuel with
  | O => None
  | S fuel' =>
      let c := js_or (keymap_get km c) JNull in
      if truthy c && truthy (keymap_get km c)
      then resolve fuel' km c
      else Some c
  end.

(** [getSpecialKey], reading the table [km] (the static
    [JX.Event._keymap], which any code may reassign). *)
Definition getSpecialKey (km : gmap string jsval) (fuel : nat)
    (this : Event) : option jsval :=
  match rawEvent this with
  | None => Some JNull
  | Some r =>
      if shiftKey r then Some JNull
      else resolve fuel km (JNum (keyCode r))
  end.

(** A native key event with the given code and shift state. *)
Definition key_event (code : Z) (shift : bool) : Event :=
  mkEvent (Some (mkRaw false true true true shift code []))
    (Some "keydown") None None [] false false [].

(** A table in which two numeric codes redirect to each other. *)
Definition cyclic_keymap : gmap string jsval :=
  list_to_map [ ("1", JNum 2); ("2", JNum 1) ].

(** The symbolic names of the shipped table. *)
Definition special_keys : list jsval :=
  [ JStr "delete"; JStr "tab"; JStr "return"; JStr "esc";
    JStr "left"; JStr "up"; JStr "right"; JStr "down" ].

(** The three methods that change an event, as a caller may apply them
    one after another. *)
Inductive method_call := Stop | Prevent | Kill.

Definition apply_call (c : method_call) (e : Event) : Event :=
  match c with
  | Stop => stop e
  | Prevent => prevent e
  | Kill => kill e
  end.

Definition apply_calls (l : list method_call) (e : Event) : Event :=
  foldl (fun e c => apply_call c e) e l.

Definition sets_stopped (c : method_call) : bool :=
  match c with Stop | Kill => true | Prevent => false end.

Definition sets_prevented (c : method_call) : bool :=
  match c with Prevent | Kill => true | Stop => false end.

(** An event without the record of the native calls made for it. *)
Definition without_calls (e : Event) : Event :=
  setRawEvent
    (option_map
       (fun r => mkRaw (cancelBubble r) (returnValue r) (stopPropagation r)
                   (preventDefault r) (shiftKey r) (keyCode r) [])
       (rawEvent e))
    e.

(** The native calls made for an event so far. *)
Definition calls_of (e : Event) : list native_call :=
  match rawEvent e with
  | Some r => native_calls r
  | None => []
  end.

(** The shipped table read as a function of the key code. *)
Definition special_key_of (code : Z) : jsval :=
  match code with
  | 8 => JStr "delete"
  | 9 => JStr "tab"
  | 13 => JStr "return"
  | 27 => JStr "esc"
  | 37 | 62234 => JStr "left"
  | 38 | 63232 => JStr "up"
  | 39 | 62235 => JStr "right"
  | 40 | 63233 => JStr "down"
  | _ => JNull
  end.


End Event.

(** ** JX.Request *)

Module Request.

Local Open Scope list_scope.

(** The constructors [send] tries, in order. *)
Inductive transport_kind := XMLHttpRequest | Msxml2_XMLHTTP | Microsoft_XMLHTTP.

(** The platform transport handle: the fields [_onreadystatechange]
    reads. *)
Record Transport := mkTransport {
  kind : transport_kind;
  readyState : Z;
  status : Z;
  responseText : string
}.

(** Modelled from the spec: [JX.defer] is not among the sources.  The
    spec has it schedule a one-shot callback and return a handle that
    cancels it ([stop] in the calls of this file).  So a timer is waiting,
    has run its callback, or was stopped before it could. *)
Inductive timer := Pending | Fired | Stopped.

(** The three channels of [events]. *)
Inductive channel := Done | Error | Finally.

(** The members and properties of one request.  [_timer] is absent until
    [send] schedules a timeout. *)
Record Request := mkRequest {
  URI : string;
  data : option obj;
  method : string;
  raw : bool;
  timeout : option Z;
  _xhrkey : option nat;
  _transport : option Transport;
  _finished : bool;
  _timer : option timer
}.

(** Calls that run code outside this file and may throw: [abort] on the
    platform handle, the subscribers of a channel, the Stratcom
    collaborators and the snippets of [onload].  The [nat] is the request
    the call is made for. *)
Inductive call :=
| XAbort (id : nat)
| Invoke (id : nat) (ch : channel) (args : list jsval)
| MergeData (m : jsval)
| InitBehaviors (m : jsval)
| RunOnload (src : jsval).

(** What can be thrown; [Dangling] stands for a method called through a
    reference to no object, which JavaScript cannot express and the
    embedding needs for heaps that are not well formed. *)
Inductive exn :=
| TypeError
| JSError (msg : string)
| EvalFailed (src : string)
| NoTransport
| Raised (c : call)
| Dangling.

(** Everything a method does to the outside, in order. *)
Inductive effect :=
| Call (c : call)
| XOpen (id : nat) (method uri : string) (async : bool)
| XSetRequestHeader (id : nat) (name value : string)
| XSend (id : nat) (body : option string)
| Defer (id : nat) (error delay : Z)
| TimerStop (id : nat)
| Log (uri : string) (x : exn)
| DeferThrow (x : exn).

(** What the code takes from its surroundings: the [__DEV__] flag, [eval]
    ([None] when it throws), which transport constructors exist, and which
    outside calls throw. *)
Record Platform := mkPlatform {
  DEV : bool;
  js_eval : string -> option jsval;
  can_construct : transport_kind -> bool;
  throws : call -> bool
}.

Definition ERROR_TIMEOUT : Z := -9000.

(** What a method can change: its receiver and the static [_xhr]. *)
Record Frame := mkFrame {
  this : Request;
  registry : list (option nat)
}.

Inductive outcome (A : Type) :=
| Ret (a : A)
| Throw (x : exn).
Arguments Ret {A} a.
Arguments Throw {A} x.

(** A method body: from the frame to how it ended, the frame it left (also
    when it threw) and the effects it had. *)
Definition M (A : Type) : Type := Frame -> outcome A * Frame * list effect.

Definition ret {A} (a : A) : M A := fun f => (Ret a, f, []).

Definition throw {A} (x : exn) : M A := fun f => (Throw x, f, []).

Definition bind {A B} (m : M A) (k : A -> M B) : M B :=
  fun f =>
    match m f with
    | (Ret a, f1, out1) =>
        match k a f1 with
        | (res, f2, out2) => (res, f2, out1 ++ out2)
        end
    | (Throw x, f1, out1) => (Throw x, f1, out1)
    end.

(** [try { m } catch (x) { handler x }]. *)
Definition try_catch {A} (m : M A) (handler : exn -> M A) : M A :=
  fun f =>
    match m f with
    | (Ret a, f1, out1) => (Ret a, f1, out1)
    | (Throw x, f1, out1) =>
        match handler x f1 with
        | (res, f2, out2) => (res, f2, out1 ++ out2)
        end
    end.

Declare Scope method_scope.
Delimit Scope method_scope with method.
Bind Scope method_scope with M.
Notation "x ← y ; z" := (bind y (fun x => z))
  (at level 20, y at level 100, z at level 200, only parsing) : method_scope.
Notation "y ;; z" := (bind y (fun _ => z))
  (at level 100, z at level 200, only parsing, right associativity)
  : method_scope.
Local Open Scope method_scope.

Definition get_this : M Request := fun f => (Ret (this f), f, []).

Definition set_this (g : Request -> Request) : M unit :=
  fun f => (Ret tt, mkFrame (g (this f)) (registry f), []).

Definition get_registry : M (list (option nat)) :=
  fun f => (Ret (registry f), f, []).

Definition set_registry (g : list (option nat) -> list (option nat))
  : M unit :=
  fun f => (Ret tt, mkFrame (this f) (g (registry f)), []).

Definition emit (e : effect) : M unit := fun f => (Ret tt, f, [e]).

(** Field updates. *)
Definition with_data (v : option obj) (r : Request) : Request :=
  mkRequest (URI r) v (method r) (raw r) (timeout r) (_xhrkey r)
    (_transport r) (_finished r) (_timer r).
Definition with_xhrkey (v : option nat) (r : Request) : Request :=
  mkRequest (URI r) (data r) (method r) (raw r) (timeout r) v
    (_transport r) (_finished r) (_timer r).
Definition with_transport (v : option Transport) (r : Request) : Request :=
  mkRequest (URI r) (data r) (method r) (raw r) (timeout r) (_xhrkey r)
    v (_finished r) (_timer r).
Definition with_finished (v : bool) (r : Request) : Request :=
  mkRequest (URI r) (data r) (method r) (raw r) (timeout r) (_xhrkey r)
    (_transport r) v (_timer r).
Definition with_timer (v : option timer) (r : Request) : Request :=
  mkRequest (URI r) (data r) (method r) (raw r) (timeout r) (_xhrkey r)
    (_transport r) (_finished r) v.

(** Named-property read [v.k], at the names the source reads (none of them
    an index): a [TypeError] on [null] and [undefined], the own property of
    an object, [length] of an array or a string, [undefined] otherwise. *)
Definition js_get (v : jsval) (k : string) : option jsval :=
  match v with
  | JUndefined | JNull => None
  | JObj o => Some (obj_get o k)
  | JArr l =>
      Some (if String.eqb k "length" then JNum (Z.of_nat (List.length l))
            else JUndefined)
  | JStr s =>
      Some (if String.eqb k "length" then JNum (Z.of_nat (String.length s))
            else JUndefined)
  | JBool _ | JNum _ => Some JUndefined
  end.

(** Indexed read [v[ii]] of a value that is not [null] or [undefined]. *)
Definition js_index (v : jsval) (ii : nat) : jsval :=
  match v with
  | JArr l => nth ii l JUndefined
  | JStr s =>
      match String.get ii s with
      | Some c => JStr (String c "")
      | None => JUndefined
      end
  | JObj o => obj_get o (number_to_string (Z.of_nat ii))
  | _ => JUndefined
  end.

(** How many [ii = 0, 1, ...] pass the test [ii < v.length].  A bound that
    is [undefined] compares false; [null] and booleans count as 0 and 1;
    bounds that are themselves strings or objects are not modelled and
    count as no iteration. *)
Definition loop_bound (v : jsval) : nat :=
  match js_get v "length" with
  | Some (JNum n) => Z.to_nat n
  | Some (JBool true) => 1%nat
  | _ => O
  end.

Section Methods.

Variable P : Platform.

(** A call to the outside: recorded, then it returns or throws as the
    platform decides.  What the callee does to its own state is not
    followed; it does not touch the request or the registry. *)
Definition call_out (c : call) : M unit :=
  fun f => (if throws P c then Throw (Raised c) else Ret tt, f, [Call c]).

(** Modelled from the spec: [invoke] comes from [JX.install], which is
    not among the sources; the spec has it notify the subscribers of the
    named channel with the given arguments. *)
Definition invoke (id : nat) (ch : channel) (args : list jsval) : M unit :=
  call_out (Invoke id ch args).

(** [this._timer.stop()]: a waiting timer will not fire any more. *)
Definition timer_stop (t : timer) : timer :=
  match t with
  | Pending => Stopped
  | Fired => Fired
  | Stopped => Stopped
  end.

(** [delete JX.Request._xhr[key]]: the slot becomes a hole; nothing happens
    for a [null] key or one past the end. *)
Definition registry_delete (key : option nat) (xhr : list (option nat))
  : list (option nat) :=
  match key with
  | Some k => <[k := None]> xhr
  | None => xhr
  end.

Definition _cleanup (id : nat) : M unit :=
  set_this (with_finished true) ;;
  r ← get_this;
  set_registry (registry_delete (_xhrkey r)) ;;
  match _timer r with
  | Some t => set_this (with_timer (Some (timer_stop t))) ;;
              emit (TimerStop id)
  | None => ret tt
  end ;;
  match _transport r with
  | Some _ => call_out (XAbort id)
  | None => throw TypeError
  end.

Definition abort (id : nat) : M unit := _cleanup id.

Definition _fail (id : nat) (error : jsval) : M unit :=
  _cleanup id ;;
  invoke id Error [error] ;;
  invoke id Finally [].

(** The [onload] loop of [_done], from index [ii] on. *)
Fixpoint run_onload (onload : jsval) (n ii : nat) : M unit :=
  match n with
  | O => ret tt
  | S n' => call_out (RunOnload (js_index onload ii)) ;;
            run_onload onload n' (S ii)
  end.

(** [response] has been read from before, so it is not [null] or
    [undefined] here and its properties can be read. *)
Definition prop (v : jsval) (k : string) : M jsval :=
  match js_get v k with
  | Some x => ret x
  | None => throw TypeError
  end.

Definition _done (id : nat) (response : jsval) : M unit :=
  _cleanup id ;;
  onload ← prop response "onload";
  (if truthy onload then run_onload onload (loop_bound onload) O
   else ret tt) ;;
  r ← get_this;
  arg ← (if raw r then ret response else prop response "payload");
  invoke id Done [arg] ;;
  invoke id Finally [].

Definition new_transport : M Transport :=
  if can_construct P XMLHttpRequest
  then ret (mkTransport XMLHttpRequest 0 0 "")
  else if can_construct P Msxml2_XMLHTTP
  then ret (mkTransport Msxml2_XMLHTTP 0 0 "")
  else if can_construct P Microsoft_XMLHTTP
  then ret (mkTransport Microsoft_XMLHTTP 0 0 "")
  else throw NoTransport.

(** [q.join('&')] over the enumerated payload. *)
Definition query_string (d : obj) : string :=
  join "&"
    (map (fun kv => (encodeURIComponent (fst kv) ++ "=" ++
                     encodeURIComponent (js_to_string (snd kv)))%string) d).

(** [send].  The payload object is the caller's: [__async__] is written
    into it, unless there is none and a fresh one is used.  Binding
    [onreadystatechange] changes nothing here: the platform reaches the
    handler through [deliver] below. *)
Definition send (id : nat) : M unit :=
  xport ← new_transport;
  set_this (with_transport (Some xport)) ;;
  xhr ← get_registry;
  set_this (with_xhrkey (Some (List.length xhr))) ;;
  set_registry (fun l => l ++ [Some id]) ;;
  r ← get_this;
  let d := obj_set (default [] (data r)) "__async__" (JBool true) in
  match data r with
  | Some _ => set_this (with_data (Some d))
  | None => ret tt
  end ;;
  let q := query_string d in
  let meth := toUpperCase (method r) in
  let uri :=
    if String.eqb meth "GET"
    then (URI r ++ (if lacks_char "?" (URI r) then "?" else "&") ++ q)%string
    else URI r in
  match timeout r with
  | Some t =>
      if negb (Z.eqb t 0)
      then set_this (with_timer (Some Pending)) ;;
           emit (Defer id ERROR_TIMEOUT t)
      else ret tt
  | None => ret tt
  end ;;
  emit (XOpen id meth uri true) ;;
  if String.eqb meth "POST"
  then emit (XSetRequestHeader id "Content-Type"
               "application/x-www-form-urlencoded") ;;
       emit (XSend id (Some q))
  else emit (XSend id None).

Definition dquote : string := String (ascii_of_nat 34) EmptyString.

(** The common start of the messages of [_onreadystatechange]. *)
Definition message (uri rest : string) : string :=
  ("JX.Request(" ++ dquote ++ uri ++ dquote ++ ", ...): " ++ rest)%string.

Definition anti_hijack : string := "for (;;);".

(** The first [try] block of [_onreadystatechange]: [None] when it
    returns from the handler, the evaluated response when control goes on
    to the second block. *)
Definition read_response (id : nat) : M (option jsval) :=
  r ← get_this;
  if _finished r then ret None
  else
    match _transport r with
    | None => throw TypeError
    | Some xport =>
        if negb (Z.eqb (readyState xport) 4) then ret None
        else if Z.ltb (status xport) 200 || Z.leb 300 (status xport)
        then _fail id JUndefined ;; ret None
        else
          (if DEV P
           then
             if Nat.eqb (String.length (responseText xport)) 0
             then throw (JSError (message (URI r)
                           "server returned an empty response."))
             else if negb (String.prefix anti_hijack (responseText xport))
             then throw (JSError (message (URI r)
                           "server returned an invalid response."))
             else ret tt
           else ret tt) ;;
          let text :=
            string_drop (String.length anti_hijack) (responseText xport) in
          let src := ("(" ++ text ++ ")")%string in
          match js_eval P src with
          | Some response => ret (Some response)
          | None => throw (EvalFailed src)
          end
    end.

Definition _onreadystatechange (id : nat) : M unit :=
  response ←
    try_catch (read_response id)
      (fun exception =>
         (if DEV P
          then r ← get_this; emit (Log (URI r) exception)
          else ret tt) ;;
         _fail id JUndefined ;;
         ret None);
  match response with
  | None => ret tt
  | Some response =>
      try_catch
        (error ← prop response "error";
         if truthy error then _fail id error
         else
           metadata ← prop response "javelin_metadata";
           call_out (MergeData (js_or metadata (JObj []))) ;;
           _done id response ;;
           behaviors ← prop response "javelin_behaviors";
           call_out (InitBehaviors (js_or behaviors (JObj []))))
        (fun exception => emit (DeferThrow exception))
  end.

(** The second [try] block of [_onreadystatechange] on its own, for the
    response the first block evaluated. *)
Definition deliver_response (id : nat) (response : jsval) : M unit :=
  try_catch
    (error ← prop response "error";
     if truthy error then _fail id error
     else
       metadata ← prop response "javelin_metadata";
       call_out (MergeData (js_or metadata (JObj []))) ;;
       _done id response ;;
       behaviors ← prop response "javelin_behaviors";
       call_out (InitBehaviors (js_or behaviors (JObj []))))
    (fun exception => emit (DeferThrow exception)).

(** The platform reports progress on the transport of request [id]: it
    sets the fields of the handle and calls the bound handler. *)
Definition progress (rs st : Z) (txt : string) (r : Request) : Request :=
  with_transport
    (option_map (fun x => mkTransport (kind x) rs st txt) (_transport r)) r.

Definition on_progress (id : nat) (rs st : Z) (txt : string) : M unit :=
  set_this (progress rs st txt) ;;
  _onreadystatechange id.

(** The delay of the timer of request [id] has passed: a timer that is
    still waiting runs its callback, [_fail] bound to [ERROR_TIMEOUT]; one
    that was stopped, or has fired, does nothing. *)
Definition on_timer (id : nat) : M unit :=
  r ← get_this;
  match _timer r with
  | Some Pending =>
      set_this (with_timer (Some Fired)) ;;
      _fail id (JNum ERROR_TIMEOUT)
  | _ => ret tt
  end.

(** *** The heap, the registry and the trace *)

Record State := mkState {
  heap : list Request;
  _xhr : list (option nat);
  trace : list effect
}.

(** A method call on the request at [id]. *)
Definition on {A} (id : nat) (m : M A) (s : State) : outcome A * State :=
  match heap s !! id with
  | Some r =>
      match m (mkFrame r (_xhr s)) with
      | (res, f, out) =>
          (res, mkState (<[id := this f]> (heap s)) (registry f)
                  (trace s ++ out))
      end
  | None => (Throw Dangling, s)
  end.

(** [new JX.Request(uri, handler)]: the properties take their defaults;
    the handler, if any, becomes a subscriber of [Done]. *)
Definition construct (uri : string) (s : State) : nat * State :=
  (List.length (heap s),
   mkState (heap s ++ [mkRequest uri None "POST" false None None None
                         false None])
     (_xhr s) (trace s)).

(** One turn of the loop of [shutdown]:
    [try { _xhr[ii] && _xhr[ii].abort(); } catch (x) { }]. *)
Definition shutdown_entry (ii : nat) (s : State) : State :=
  match _xhr s !! ii with
  | Some (Some id) => snd (on id (abort id) s)
  | _ => s
  end.

(** The loop runs while [ii < _xhr.length]; [abort] leaves the length as
    it is (lemma [shutdown_entry_length]), so the number [n] of turns left
    is fixed when the loop starts. *)
Fixpoint shutdown_loop (n ii : nat) (s : State) : State :=
  match n with
  | O => s
  | S n' => shutdown_loop n' (S ii) (shutdown_entry ii s)
  end.

Definition shutdown (s : State) : State :=
  let s := shutdown_loop (List.length (_xhr s)) 0 s in
  mkState (heap s) [] (trace s).

(** The generated property setters. *)
Inductive setter :=
| setURI (v : string)
| setData (v : option obj)
| setMethod (v : string)
| setRaw (v : bool)
| setTimeout (v : option Z).

Definition apply_setter (p : setter) (r : Request) : Request :=
  match p with
  | setURI v =>
      mkRequest v (data r) (method r) (raw r) (timeout r) (_xhrkey r)
        (_transport r) (_finished r) (_timer r)
  | setData v => with_data v r
  | setMethod v =>
      mkRequest (URI r) (data r) v (raw r) (timeout r) (_xhrkey r)
        (_transport r) (_finished r) (_timer r)
  | setRaw v =>
      mkRequest (URI r) (data r) (method r) v (timeout r) (_xhrkey r)
        (_transport r) (_finished r) (_timer r)
  | setTimeout v =>
      mkRequest (URI r) (data r) (method r) (raw r) v (_xhrkey r)
        (_transport r) (_finished r) (_timer r)
  end.

(** What can happen to the system: calls by the application and events
    from the platform. *)
Inductive action :=
| Construct (uri : string)
| Configure (id : nat) (p : setter)
| Send (id : nat)
| Abort (id : nat)
| Progress (id : nat) (rs st : Z) (txt : string)
| TimerFires (id : nat)
| Shutdown.

(** An exception that leaves a method goes to the caller; the state is
    what the method left. *)
Definition run (a : action) (s : State) : State :=
  match a with
  | Construct uri => snd (construct uri s)
  | Configure id p => snd (on id (set_this (apply_setter p)) s)
  | Send id => snd (on id (send id) s)
  | Abort id => snd (on id (abort id) s)
  | Progress id rs st txt => snd (on id (on_progress id rs st txt) s)
  | TimerFires id => snd (on id (on_timer id) s)
  | Shutdown => shutdown s
  end.

(** The life of a request, as the spec has it, goes from unsent to in
    flight by one [send]: the states considered are those in which [send]
    is called on a request that was not sent or torn down before.  (A
    second [send] on the same object would leave the first timer and
    transport behind, still bound to it.) *)
Definition unsent (r : Request) : Prop :=
  _transport r = None /\ _finished r = false.

Definition allowed (s : State) (a : action) : Prop :=
  match a with
  | Send id => exists r, heap s !! id = Some r /\ unsent r
  | _ => True
  end.

Definition initial : State := mkState [] [] [].

Inductive reachable : State -> Prop :=
| reachable_initial : reachable initial
| reachable_run s a : reachable s -> allowed s a -> reachable (run a s).

(** *** What teardown amounts to *)

(** The receiver after [_cleanup]. *)
Definition cleaned (r : Request) : Request :=
  with_timer (option_map timer_stop (_timer r)) (with_finished true r).

Definition cleanup_frame (f : Frame) : Frame :=
  mkFrame (cleaned (this f))
    (registry_delete (_xhrkey (this f)) (registry f)).

Definition cleanup_effects (id : nat) (r : Request) : list effect :=
  match _timer r with Some _ => [TimerStop id] | None => [] end ++
  match _transport r with Some _ => [Call (XAbort id)] | None => [] end.

Definition cleanup_outcome (id : nat) (r : Request) : outcome unit :=
  match _transport r with
  | Some _ => if throws P (XAbort id) then Throw (Raised (XAbort id))
              else Ret tt
  | None => Throw TypeError
  end.

(** The two notifications of [_fail], up to the first that throws. *)
Definition fail_notices (id : nat) (error : jsval) : list effect :=
  Call (Invoke id Error [error]) ::
  (if throws P (Invoke id Error [error]) then []
   else [Call (Invoke id Finally [])]).

Definition fail_notices_outcome (id : nat) (error : jsval) : outcome unit :=
  if throws P (Invoke id Error [error])
  then Throw (Raised (Invoke id Error [error]))
  else if throws P (Invoke id Finally [])
  then Throw (Raised (Invoke id Finally []))
  else Ret tt.

(** A finished request has no waiting timer. *)
Definition quiet_timer (r : Request) : Prop :=
  _finished r = true -> _timer r <> Some Pending.

(** What the methods other than [send] keep of a frame: the key of the
    receiver, whether it has a transport, its being finished once it is,
    and its having no waiting timer when it is finished; the registry
    changes at most by a hole at that key. *)
Definition evolves (f f' : Frame) : Prop :=
  _xhrkey (this f') = _xhrkey (this f) /\
  (_transport (this f') = None <-> _transport (this f) = None) /\
  (registry f' = registry f \/
   registry f' = registry_delete (_xhrkey (this f)) (registry f)) /\
  (_finished (this f) = true -> _finished (this f') = true) /\
  (quiet_timer (this f) -> quiet_timer (this f')).

(** The frame a method leaves. *)
Definition frame_of {A} (x : outcome A * Frame * list effect) : Frame :=
  snd (fst x).

Definition effects_of {A} (x : outcome A * Frame * list effect)
  : list effect := snd x.

Definition outcome_of {A} (x : outcome A * Frame * list effect)
  : outcome A := fst (fst x).

(** A method that keeps all this, however it ends. *)
Definition sound {A} (m : M A) : Prop := forall f, evolves f (frame_of (m f)).

(** Every slot of the registry holds a request that was sent and whose key
    is that slot. *)
Definition registry_wf (s : State) : Prop :=
  forall i id, _xhr s !! i = Some (Some id) ->
    exists r, heap s !! id = Some r /\ _xhrkey r = Some i /\
              _transport r <> None.

Definition invariant (s : State) : Prop :=
  (forall id r, heap s !! id = Some r -> quiet_timer r) /\ registry_wf s.

Definition run_all (l : list action) (s : State) : State :=
  foldl (fun s a => run a s) s l.

(** Some constructor of [send] works. *)
Definition constructible : Prop := exists k, can_construct P k = true.



(** What [send] asks of the platform, for the receiver as it was: the
    payload with the marker, the target, and the calls. *)
Definition send_payload (r : Request) : obj :=
  obj_set (default [] (data r)) "__async__" (JBool true).

Definition send_target (r : Request) : string :=
  if String.eqb (toUpperCase (method r)) "GET"
  then (URI r ++ (if lacks_char "?" (URI r) then "?" else "&") ++
        query_string (send_payload r))%string
  else URI r.

Definition send_effects (id : nat) (r : Request) : list effect :=
  match timeout r with
  | Some t => if Z.eqb t 0 then [] else [Defer id ERROR_TIMEOUT t]
  | None => []
  end ++
  XOpen id (toUpperCase (method r)) (send_target r) true ::
  (if String.eqb (toUpperCase (method r)) "POST"
   then [XSetRequestHeader id "Content-Type"
           "application/x-www-form-urlencoded";
         XSend id (Some (query_string (send_payload r)))]
   else [XSend id None]).



(** The status is one of the 2xx. *)
Definition nominal (st : Z) : Prop := 200 <= st < 300.

(** The body gets past the checks of the development mode: there are
    none, or it is not empty and starts with the prefix. *)
Definition passes_checks (txt : string) : Prop :=
  DEV P = false \/
  (Nat.eqb (String.length txt) 0 = false /\
   String.prefix anti_hijack txt = true).

(** What [_onreadystatechange] hands to [eval]. *)
Definition eval_source (txt : string) : string :=
  ("(" ++ string_drop (String.length anti_hijack) txt ++ ")")%string.



(** The notifications in a trace: request, channel, arguments. *)
Definition notification (e : effect)
  : option (nat * channel * list jsval) :=
  match e with
  | Call (Invoke id ch args) => Some (id, ch, args)
  | _ => None
  end.

Definition notifications (t : list effect)
  : list (nat * channel * list jsval) :=
  omap notification t.

(** A method that notifies nobody when called on a request that has a
    transport, and leaves the transport in place. *)
Definition mute {A} (m : M A) : Prop :=
  forall f, _transport (this f) <> None ->
    notifications (effects_of (m f)) = [] /\
    _transport (this (frame_of (m f))) <> None.

End Methods.

(** *** Sample platforms *)

(** A stand-in for [eval] that knows three source texts. *)
Definition sample_eval (src : string) : option jsval :=
  if String.eqb src "({})" then Some (JObj [])
  else if String.eqb src "(1)" then Some (JNum 1)
  else if String.eqb src "(null)" then Some JNull
  else None.

(** A browser with [XMLHttpRequest] in which no outside call throws. *)
Definition browser (dev : bool) : Platform :=
  mkPlatform dev sample_eval
    (fun k => match k with XMLHttpRequest => true | _ => false end)
    (fun _ => false).

(** A platform without the development checks on which aborting the
    transport of request 1 throws. *)
Definition flaky : Platform :=
  mkPlatform false sample_eval
    (fun k => match k with XMLHttpRequest => true | _ => false end)
    (fun c => match c with XAbort 1 => true | _ => false end).

(** Three requests in flight. *)
Definition three_sent (P : Platform) : State :=
  run_all P
    [Construct "/a"; Construct "/b"; Construct "/c"; Send 0; Send 1; Send 2]%nat
    initial.

(** One request, constructed and given a timeout, and the same in
    flight. *)
Definition one_configured (P : Platform) (t : option Z) : State :=
  run_all P [Construct "http://x/y"; Configure 0 (setTimeout t)]%nat initial.

Definition one_sent (P : Platform) (t : option Z) : State :=
  run P (Send 0) (one_configured P t).

(** A request is sent and the page shut down; then a second request is
    sent, which gets the slot the first one had. *)
Definition slot_reused (P : Platform) : State :=
  run_all P [Construct "/a"; Send 0; Shutdown; Construct "/b"; Send 1]%nat
    initial.

(** The request of the [GET] example, before it is sent. *)
Definition get_example (P : Platform) : State :=
  run_all P
    [Construct "http://x/y"; Configure 0 (setMethod "GET");
     Configure 0 (setData (Some [("a", JStr "1")]))]%nat
    initial.

(** A stand-in for [eval] that also knows an envelope with an [error]
    field and one with an [onload] list. *)
Definition envelope_eval (src : string) : option jsval :=
  if String.eqb src "({error:1})" then Some (JObj [("error", JNum 1)])
  else if String.eqb src "({onload:[1]})"
  then Some (JObj [("onload", JArr [JNum 1])])
  else sample_eval src.

(** A browser in development mode whose outside calls throw as given. *)
Definition server (throwing : call -> bool) : Platform :=
  mkPlatform true envelope_eval
    (fun k => match k with XMLHttpRequest => true | _ => false end)
    throwing.

(** A platform on which no transport can be constructed. *)
Definition no_transport : Platform :=
  mkPlatform false sample_eval (fun _ => false) (fun _ => false).


(** Only the subscriber of [Error] of request 0 throws. *)
Definition error_throws (c : call) : bool :=
  match c with
  | Invoke O Error _ => true
  | _ => false
  end.


(** A request with a query in its URI, a lower-case method and a payload,
    before it is sent. *)
Definition query_example (P : Platform) (meth : string) : State :=
  run_all P
    [Construct "http://x/y?z=1"; Configure 0 (setMethod meth);
     Configure 0 (setData (Some [("a b", JStr "1&2"); ("__async__", JNum 0)]))]%nat
    initial.

End Request.

(** * Properties of JX.Event *)

Module EventFacts.
Import Event.

Lemma resolve_S (fuel : nat) (km : gmap string jsval) (c : jsval) :
  resolve (S fuel) km c =
  let c := js_or (keymap_get km c) JNull in
  if truthy c && truthy (keymap_get km c) then resolve fuel km c
  else Some c.
Proof. reflexivity. Qed.

(** Fuel beyond what the loop needs does not change the result. *)
Lemma resolve_more_fuel (n m : nat) (km : gmap string jsval) (c k : jsval) :
  resolve n km c = Some k -> resolve (n + m) km c = Some k.
Proof.
  revert c. induction n as [| n IH]; intros c; [discriminate |].
  change (S n + m)%nat with (S (n + m)). rewrite !resolve_S. cbv zeta.
  destruct (truthy (js_or (keymap_get km c) JNull) &&
            truthy (keymap_get km (js_or (keymap_get km c) JNull)));
    [apply IH | tauto].
Qed.

(** One turn is not enough for the alternate codes: after it the loop
    holds the primary code and goes on. *)
Lemma resolve_alternate_needs_two :
  resolve 1 _keymap (JNum 63233) = None /\
  resolve 2 _keymap (JNum 63233) = Some (JStr "down").
Proof. split; vm_compute; reflexivity. Qed.

(** What the shipped table holds. *)
Lemma _keymap_values (k : string) (v : jsval) :
  _keymap !! k = Some v ->
  In v special_keys \/ In v [JNum 38; JNum 40; JNum 37; JNum 39].
Proof.
  intros H. apply elem_of_list_to_map_2 in H.
  repeat (apply elem_of_cons in H as [H | H];
          [injection H as _ ->; simpl; tauto |]).
  inversion H.
Qed.

(** The first lookup gives [null], a name, or a primary code; after the
    second one only [null] or a name is left. *)
Lemma resolve_shipped (fuel : nat) (z : Z) :
  exists k, resolve (2 + fuel) _keymap (JNum z) = Some k /\
            (k = JNull \/ In k special_keys).
Proof.
  change (2 + fuel)%nat with (S (S fuel)). rewrite resolve_S.
  unfold keymap_get at 1. cbv zeta.
  destruct (_keymap !! js_to_string (JNum z)) as [v |] eqn:E.
  - apply _keymap_values in E as [E | E]; simpl in E.
    + repeat (destruct E as [<- | E];
              [eexists; split; [vm_compute; reflexivity | simpl; tauto] |]).
      destruct E.
    + repeat (destruct E as [<- | E];
              [eexists; split; [vm_compute; reflexivity | simpl; tauto] |]).
      destruct E.
  - exists JNull. split; [reflexivity | tauto].
Qed.

(** In the cyclic table the loop is still running after any number of
    turns. *)
Lemma resolve_cyclic (fuel : nat) :
  resolve fuel cyclic_keymap (JNum 1) = None /\
  resolve fuel cyclic_keymap (JNum 2) = None.
Proof.
  induction fuel as [| fuel [IH1 IH2]]; [split; reflexivity |].
  split; rewrite resolve_S.
  - change (js_or (keymap_get cyclic_keymap (JNum 1)) JNull) with (JNum 2).
    change (keymap_get cyclic_keymap (JNum 2)) with (JNum 1).
    exact IH2.
  - change (js_or (keymap_get cyclic_keymap (JNum 2)) JNull) with (JNum 1).
    change (keymap_get cyclic_keymap (JNum 1)) with (JNum 2).
    exact IH1.
Qed.

(** C4, as the code has it: with the shipped table [_keymap],
    [getSpecialKey] returns for every event after at most two turns of its
    loop, that is, after at most one redirection from a numeric code to
    another numeric code, and what it returns is [null] or one of the eight
    symbolic names. *)
Theorem getSpecialKey_shipped_two_lookups (e : Event) (fuel : nat) :
  exists k, getSpecialKey _keymap (2 + fuel) e = Some k /\
            (k = JNull \/ In k special_keys).
Proof.
  unfold getSpecialKey.
  destruct (rawEvent e) as [r |]; [| exists JNull; split; [reflexivity | tauto]].
  destruct (shiftKey r); [exists JNull; split; [reflexivity | tauto] |].
  apply resolve_shipped.
Qed.

(** C4, as stated, fails: the loop of [getSpecialKey] follows redirections
    for as long as the table gives them, and on a table with a cycle of
    numeric codes it never returns. *)
Lemma getSpecialKey_cycle_never_returns :
  ~ exists fuel k,
      getSpecialKey cyclic_keymap fuel (key_event 1 false) = Some k.
Proof.
  intros (fuel & k & H). unfold getSpecialKey in H. simpl in H.
  destruct (resolve_cyclic fuel) as [H1 _]. congruence.
Qed.

(** C8: both codes of the down arrow, 40 and the alternate 63233 that
    redirects to it, give ['down'], and with the shift key held the result
    is [null] for every code and every table. *)
Theorem getSpecialKey_down_and_shift (e : Event) (r : RawEvent) (fuel : nat) :
  rawEvent e = Some r ->
  (shiftKey r = false -> keyCode r = 40 \/ keyCode r = 63233 ->
   getSpecialKey _keymap (2 + fuel) e = Some (JStr "down")) /\
  (shiftKey r = true ->
   forall km, getSpecialKey km fuel e = Some JNull).
Proof.
  intros Hr. unfold getSpecialKey. rewrite Hr. split.
  - intros -> [-> | ->]; vm_compute; reflexivity.
  - intros ->. reflexivity.
Qed.

Lemma getSpecialKey_down_and_shift_witness :
  getSpecialKey _keymap 2 (key_event 40 false) = Some (JStr "down") /\
  getSpecialKey _keymap 2 (key_event 63233 false) = Some (JStr "down") /\
  getSpecialKey _keymap 2 (key_event 40 true) = Some JNull.
Proof.
  split; [| split].
  - apply (getSpecialKey_down_and_shift (key_event 40 false) _ 0 eq_refl);
      [reflexivity | left; reflexivity].
  - apply (getSpecialKey_down_and_shift (key_event 63233 false) _ 0 eq_refl);
      [reflexivity | right; reflexivity].
  - apply (getSpecialKey_down_and_shift (key_event 40 true) _ 2 eq_refl).
    reflexivity.
Defined.

(** C9: [kill] is [prevent] followed by [stop] and returns the receiver;
    after it both flags are set, while [prevent] alone leaves [stopped] as
    it was (so [false] stays [false]) and [stop] alone sets it. *)
Theorem kill_is_prevent_then_stop (e : Event) :
  kill e = stop (prevent e) /\
  stopped (kill e) = true /\
  prevented (kill e) = true /\
  stopped (prevent e) = stopped e /\
  stopped (stop e) = true.
Proof.
  unfold kill, stop, prevent.
  destruct e as [[r |] ty tg d p st pr n]; simpl; repeat split.
Qed.

End EventFacts.

(** * Properties of JX.Request *)

Module RequestFacts.
Import Request.
Local Open Scope list_scope.

(** Unfolds the monad and the record plumbing, not the methods. *)
Ltac monad :=
  cbv beta iota zeta delta
    [bind ret throw try_catch get_this get_registry set_this set_registry
     emit call_out
     invoke prop progress option_map with_transport with_finished
     with_timer with_data
     with_xhrkey this registry _finished _transport _timer _xhrkey URI data
     method raw timeout readyState status responseText kind
     frame_of effects_of outcome_of fst snd].

Section Frames.

Variable P : Platform.

Lemma _cleanup_eq (id : nat) (f : Frame) :
  _cleanup P id f =
  (cleanup_outcome P id (this f), cleanup_frame f,
   cleanup_effects id (this f)).
Proof.
  destruct f as [[u d m rw tm key xp fin tim] xhr].
  unfold _cleanup, cleanup_outcome, cleanup_frame, cleanup_effects, cleaned.
  monad.
  destruct tim as [t |], xp as [x |]; monad; simpl;
    try destruct (throws P (XAbort id)); reflexivity.
Qed.

Lemma _fail_eq (id : nat) (error : jsval) (f : Frame) :
  _fail P id error f =
  match cleanup_outcome P id (this f) with
  | Ret _ =>
      (fail_notices_outcome P id error, cleanup_frame f,
       cleanup_effects id (this f) ++ fail_notices P id error)
  | Throw x => (Throw x, cleanup_frame f, cleanup_effects id (this f))
  end.
Proof.
  unfold _fail. unfold bind at 1. rewrite _cleanup_eq.
  destruct (cleanup_outcome P id (this f)); [| reflexivity].
  unfold fail_notices_outcome, fail_notices. monad.
  destruct (throws P (Invoke id Error [error])); [reflexivity |].
  destruct (throws P (Invoke id Finally [])); reflexivity.
Qed.

(** *** What every method leaves intact *)

Lemma registry_delete_twice (key : option nat) (xhr : list (option nat)) :
  registry_delete key (registry_delete key xhr) = registry_delete key xhr.
Proof. destruct key; [apply list_insert_insert_eq | reflexivity]. Qed.

Lemma evolves_refl (f : Frame) : evolves f f.
Proof. unfold evolves. tauto. Qed.

Lemma evolves_trans (f1 f2 f3 : Frame) :
  evolves f1 f2 -> evolves f2 f3 -> evolves f1 f3.
Proof.
  intros (K1 & T1 & R1 & F1 & Q1) (K2 & T2 & R2 & F2 & Q2).
  unfold evolves. repeat split; try tauto; try congruence.
  rewrite K1 in R2.
  destruct R1 as [R1 | R1], R2 as [R2 | R2]; rewrite R2, R1;
    rewrite ?registry_delete_twice; tauto.
Qed.

Lemma sound_ret {A} (a : A) : sound (ret a).
Proof. intros f. apply evolves_refl. Qed.

Lemma sound_throw {A} (x : exn) : sound (@throw A x).
Proof. intros f. apply evolves_refl. Qed.

Lemma sound_emit (e : effect) : sound (emit e).
Proof. intros f. apply evolves_refl. Qed.

Lemma sound_call_out (c : call) : sound (call_out P c).
Proof. intros f. apply evolves_refl. Qed.

Lemma sound_get_this : sound get_this.
Proof. intros f. apply evolves_refl. Qed.

Lemma sound_bind {A B} (m : M A) (k : A -> M B) :
  sound m -> (forall a, sound (k a)) -> sound (bind m k).
Proof.
  intros Hm Hk f. specialize (Hm f). unfold bind, frame_of in *.
  destruct (m f) as [[[a | x] f1] out1]; [| exact Hm].
  specialize (Hk a f1). unfold frame_of in Hk.
  destruct (k a f1) as [[res f2] out2]. simpl in *.
  eapply evolves_trans; eassumption.
Qed.

Lemma sound_try_catch {A} (m : M A) (h : exn -> M A) :
  sound m -> (forall x, sound (h x)) -> sound (try_catch m h).
Proof.
  intros Hm Hh f. specialize (Hm f). unfold try_catch, frame_of in *.
  destruct (m f) as [[[a | x] f1] out1]; [exact Hm |].
  specialize (Hh x f1). unfold frame_of in Hh.
  destruct (h x f1) as [[res f2] out2]. simpl in *.
  eapply evolves_trans; eassumption.
Qed.

Lemma timer_stop_not_pending (t : timer) : timer_stop t <> Pending.
Proof. destruct t; discriminate. Qed.

Lemma sound__cleanup (id : nat) : sound (_cleanup P id).
Proof.
  intros f. rewrite _cleanup_eq.
  destruct f as [[u d m rw tm key xp fin tim] xhr].
  unfold evolves, quiet_timer; simpl. repeat split; try tauto.
  intros _ _. destruct tim as [t |]; simpl; [| discriminate].
  intros [=H]. exact (timer_stop_not_pending t H).
Qed.

(** A field update that keeps the key, the transport and the flag, and
    leaves no finished request with a waiting timer. *)
Lemma sound_set_this (g : Request -> Request) :
  (forall r, _xhrkey (g r) = _xhrkey r /\
             (_transport (g r) = None <-> _transport r = None) /\
             _finished (g r) = _finished r /\
             (quiet_timer r -> quiet_timer (g r))) ->
  sound (set_this g).
Proof.
  intros H f. destruct (H (this f)) as (K & T & F & Q).
  unfold evolves; simpl. repeat split; try tauto; congruence.
Qed.

Ltac sound :=
  repeat first
    [ apply sound_ret | apply sound_throw | apply sound_emit
    | apply sound_call_out | apply sound_get_this | apply sound__cleanup
    | solve [auto]
    | apply sound_bind; [| intros ?]
    | apply sound_try_catch; [| intros ?]
    | match goal with
      | |- sound (if ?b then _ else _) => destruct b
      | |- sound (match ?x with _ => _ end) => destruct x
      end ].

Lemma sound__fail (id : nat) (error : jsval) : sound (_fail P id error).
Proof. unfold _fail, invoke. sound. Qed.

Lemma sound_run_onload (onload : jsval) (n ii : nat) :
  sound (run_onload P onload n ii).
Proof.
  revert ii. induction n as [| n IH]; intros ii; simpl; [apply sound_ret |].
  apply sound_bind; [apply sound_call_out | intros _; apply IH].
Qed.

Lemma sound__done (id : nat) (response : jsval) :
  sound (_done P id response).
Proof.
  unfold _done, invoke, prop. pose proof sound_run_onload. sound.
Qed.

Lemma sound_read_response (id : nat) : sound (read_response P id).
Proof.
  unfold read_response. pose proof (sound__fail id). sound.
Qed.

Lemma sound__onreadystatechange (id : nat) :
  sound (_onreadystatechange P id).
Proof.
  unfold _onreadystatechange, prop.
  pose proof (sound__fail id). pose proof (sound__done id).
  pose proof (sound_read_response id). sound.
Qed.

Lemma sound_on_progress (id : nat) (rs st : Z) (txt : string) :
  sound (on_progress P id rs st txt).
Proof.
  unfold on_progress. apply sound_bind.
  - apply sound_set_this. intros [u d m rw tm key [x |] fin tim];
      unfold quiet_timer; simpl; repeat split; tauto || discriminate.
  - intros _. apply sound__onreadystatechange.
Qed.

Lemma sound_on_timer (id : nat) : sound (on_timer P id).
Proof.
  unfold on_timer. apply sound_bind; [apply sound_get_this | intros r].
  destruct (_timer r) as [[| |] |]; try apply sound_ret.
  apply sound_bind; [| intros _; apply sound__fail].
  apply sound_set_this. intros [u d m rw tm key xp fin tim];
    unfold quiet_timer; simpl; repeat split; tauto || discriminate.
Qed.

Lemma sound_setter (p : setter) : sound (set_this (apply_setter p)).
Proof.
  apply sound_set_this. intros [u d m rw tm key xp fin tim].
  destruct p; unfold quiet_timer; simpl; repeat split; tauto.
Qed.

(** *** Method calls on the heap *)

Lemma on_eq {A} (id : nat) (m : M A) (s : State) (r : Request) :
  heap s !! id = Some r ->
  on id m s =
  (outcome_of (m (mkFrame r (_xhr s))),
   mkState (<[id := this (frame_of (m (mkFrame r (_xhr s))))]> (heap s))
     (registry (frame_of (m (mkFrame r (_xhr s)))))
     (trace s ++ effects_of (m (mkFrame r (_xhr s))))).
Proof.
  intros H. unfold on. rewrite H.
  destruct (m (mkFrame r (_xhr s))) as [[res f] out]. reflexivity.
Qed.

Lemma registry_delete_lookup (key : option nat) (xhr : list (option nat))
    (i id : nat) :
  registry_delete key xhr !! i = Some (Some id) -> xhr !! i = Some (Some id).
Proof.
  destruct key as [k |]; simpl; [| tauto].
  intros H. apply list_lookup_insert_Some in H.
  destruct H as [(_ & [=] & _) | [_ H]]. exact H.
Qed.

Lemma on_quiet {A} (id : nat) (m : M A) (s : State) :
  sound m ->
  (forall id r, heap s !! id = Some r -> quiet_timer r) ->
  forall id' r', heap (snd (on id m s)) !! id' = Some r' -> quiet_timer r'.
Proof.
  intros Hm I1. destruct (heap s !! id) as [r |] eqn:Hr.
  2: { unfold on. rewrite Hr. exact I1. }
  rewrite (on_eq _ _ _ _ Hr). simpl.
  destruct (Hm (mkFrame r (_xhr s))) as (_ & _ & _ & _ & Q); simpl in Q.
  intros id' r' H. apply list_lookup_insert_Some in H.
  destruct H as [(<- & <- & _) | [_ H]]; [| eauto].
  apply Q. eauto.
Qed.

Lemma on_registry_wf {A} (id : nat) (m : M A) (s : State) :
  sound m -> registry_wf s -> registry_wf (snd (on id m s)).
Proof.
  intros Hm I2. destruct (heap s !! id) as [r |] eqn:Hr.
  2: { unfold on. rewrite Hr. exact I2. }
  rewrite (on_eq _ _ _ _ Hr). simpl.
  specialize (Hm (mkFrame r (_xhr s))).
  set (f' := frame_of (m (mkFrame r (_xhr s)))) in *.
  destruct Hm as (K & T & R & _); simpl in *.
  intros i id0 H. simpl in H.
  assert (H0 : _xhr s !! i = Some (Some id0)).
  { destruct R as [R | R]; rewrite R in H;
      [exact H | exact (registry_delete_lookup _ _ _ _ H)]. }
  destruct (I2 i id0 H0) as (r0 & L0 & K0 & T0). simpl.
  destruct (decide (id = id0)) as [<- | Hne].
  - exists (this f'). split.
    + apply list_lookup_insert_eq. eapply lookup_lt_Some; eassumption.
    + assert (r0 = r) as -> by congruence. split; [congruence | tauto].
  - exists r0. rewrite list_lookup_insert_ne by assumption. tauto.
Qed.

Lemma on_invariant {A} (id : nat) (m : M A) (s : State) :
  sound m -> invariant s -> invariant (snd (on id m s)).
Proof.
  intros Hm [I1 I2]. split.
  - apply on_quiet; assumption.
  - apply on_registry_wf; assumption.
Qed.

(** What [send] leaves: nothing when no transport can be made, otherwise a
    request with a transport, registered last, its timer waiting when a
    timeout is configured. *)
Lemma send_frame (id : nat) (f : Frame) :
  (can_construct P XMLHttpRequest = false /\
   can_construct P Msxml2_XMLHTTP = false /\
   can_construct P Microsoft_XMLHTTP = false /\
   send P id f = (Throw NoTransport, f, [])) \/
  (outcome_of (send P id f) = Ret tt /\
   registry (frame_of (send P id f)) = registry f ++ [Some id] /\
   _xhrkey (this (frame_of (send P id f))) =
     Some (List.length (registry f)) /\
   _transport (this (frame_of (send P id f))) <> None /\
   _finished (this (frame_of (send P id f))) = _finished (this f) /\
   _timer (this (frame_of (send P id f))) =
     match timeout (this f) with
     | Some t => if Z.eqb t 0 then _timer (this f) else Some Pending
     | None => _timer (this f)
     end).
Proof.
  destruct f as [[u d m rw tm key xp fin tim] xhr].
  unfold send, new_transport.
  destruct (can_construct P XMLHttpRequest);
    [| destruct (can_construct P Msxml2_XMLHTTP);
       [| destruct (can_construct P Microsoft_XMLHTTP);
          [| left; repeat split; reflexivity ]]];
    right; monad;
    destruct d as [d |], tm as [t |]; try destruct (Z.eqb t 0); monad;
    simpl; destruct (String.eqb (toUpperCase m) "POST"); simpl;
    repeat split; discriminate.
Qed.

Lemma send_effects_eq (id : nat) (f : Frame) :
  outcome_of (send P id f) = Ret tt ->
  effects_of (send P id f) = send_effects id (this f).
Proof.
  destruct f as [[u d m rw tm key xp fin tim] xhr].
  unfold send, new_transport, send_effects, send_target, send_payload.
  destruct (can_construct P XMLHttpRequest);
    [| destruct (can_construct P Msxml2_XMLHTTP);
       [| destruct (can_construct P Microsoft_XMLHTTP);
          [| discriminate ]]];
    intros _; monad;
    destruct d as [d |], tm as [t |]; try destruct (Z.eqb t 0); monad;
    simpl; destruct (String.eqb (toUpperCase m) "POST"); reflexivity.
Qed.

Lemma send_invariant (id : nat) (s : State) :
  invariant s -> allowed s (Send id) ->
  invariant (snd (on id (send P id) s)).
Proof.
  intros [I1 I2] (r & Hr & Ht & Hf). rewrite (on_eq _ _ _ _ Hr). simpl.
  destruct (send_frame id (mkFrame r (_xhr s)))
    as [(_ & _ & _ & E) | (_ & R & K & T & F & _)].
  - rewrite E. unfold frame_of; simpl. rewrite (list_insert_id _ _ _ Hr).
    split; assumption.
  - set (f' := frame_of (send P id (mkFrame r (_xhr s)))) in *.
    simpl in *. split.
    + intros id' r' H. simpl in H. apply list_lookup_insert_Some in H.
      destruct H as [(<- & <- & _) | [_ H]]; [| eauto].
      intros H. congruence.
    + intros i id0 H. simpl in *. rewrite R in H.
      destruct (decide (i < List.length (_xhr s))%nat) as [Hlt | Hge].
      * rewrite lookup_app_l in H by assumption.
        destruct (I2 i id0 H) as (r0 & L0 & K0 & T0).
        assert (id <> id0) by (intros <-; congruence).
        exists r0. rewrite list_lookup_insert_ne by assumption. tauto.
      * rewrite lookup_app_r in H by lia.
        destruct (i - List.length (_xhr s))%nat as [| n] eqn:E;
          [| destruct n; discriminate].
        injection H as <-. exists (this f'). split.
        -- apply list_lookup_insert_eq. eapply lookup_lt_Some; eassumption.
        -- split; [| assumption]. rewrite K. f_equal. lia.
Qed.

Lemma construct_invariant (uri : string) (s : State) :
  invariant s -> invariant (snd (construct uri s)).
Proof.
  intros [I1 I2]. split; simpl.
  - intros id r H. apply lookup_app_Some in H.
    destruct H as [H | [_ H]]; [eauto |].
    destruct (id - List.length (heap s))%nat as [| n];
      [| destruct n; discriminate].
    injection H as <-. intros H. discriminate.
  - intros i id H. destruct (I2 i id H) as (r & L & K & T).
    exists r. split; [| tauto]. apply lookup_app_l_Some. exact L.
Qed.

Lemma shutdown_entry_invariant (ii : nat) (s : State) :
  invariant s -> invariant (shutdown_entry P ii s).
Proof.
  intros I. unfold shutdown_entry.
  destruct (_xhr s !! ii) as [[id |] |]; try assumption.
  apply on_invariant; [apply sound__cleanup | assumption].
Qed.

Lemma shutdown_loop_invariant (n ii : nat) (s : State) :
  invariant s -> invariant (shutdown_loop P n ii s).
Proof.
  revert ii s. induction n as [| n IH]; intros ii s I; simpl; [assumption |].
  apply IH, shutdown_entry_invariant, I.
Qed.

Lemma shutdown_invariant (s : State) :
  invariant s -> invariant (shutdown P s).
Proof.
  intros I. unfold shutdown.
  destruct (shutdown_loop_invariant (List.length (_xhr s)) 0 s I) as [I1 _].
  split; [exact I1 |]. intros i id H. simpl in H. discriminate.
Qed.

Lemma run_invariant (a : action) (s : State) :
  invariant s -> allowed s a -> invariant (run P a s).
Proof.
  intros I Ha. destruct a; simpl.
  - apply construct_invariant, I.
  - apply on_invariant; [apply sound_setter | exact I].
  - apply send_invariant; assumption.
  - apply on_invariant; [apply sound__cleanup | exact I].
  - apply on_invariant; [apply sound_on_progress | exact I].
  - apply on_invariant; [apply sound_on_timer | exact I].
  - apply shutdown_invariant, I.
Qed.

(** In every state the system reaches, a finished request has no waiting
    timer and the registry is well formed. *)
Lemma reachable_invariant (s : State) : reachable P s -> invariant s.
Proof.
  induction 1 as [| s a _ IH Ha].
  - split; [intros id r H | intros i id H]; discriminate.
  - apply run_invariant; assumption.
Qed.

(** *** Teardown and what follows it *)

Lemma notifications_app (t1 t2 : list effect) :
  notifications (t1 ++ t2) = notifications t1 ++ notifications t2.
Proof. apply omap_app. Qed.

Lemma notifications_cleanup (id : nat) (r : Request) :
  notifications (cleanup_effects id r) = [].
Proof.
  unfold cleanup_effects. destruct (_timer r), (_transport r); reflexivity.
Qed.

Lemma abort_eq (id : nat) (s : State) (r : Request) :
  heap s !! id = Some r ->
  on id (abort P id) s =
  (cleanup_outcome P id r,
   mkState (<[id := cleaned r]> (heap s))
     (registry_delete (_xhrkey r) (_xhr s))
     (trace s ++ cleanup_effects id r)).
Proof.
  intros H. rewrite (on_eq _ _ _ _ H). unfold abort.
  rewrite _cleanup_eq. reflexivity.
Qed.




Lemma timer_not_waiting (id : nat) (s : State) (r : Request) :
  heap s !! id = Some r -> _timer r <> Some Pending ->
  trace (run P (TimerFires id) s) = trace s.
Proof.
  intros H Ht. simpl. rewrite (on_eq _ _ _ _ H).
  unfold on_timer. monad.
  destruct r as [u d m rw tm key xp fin [[| |] |]]; simpl in *;
    try congruence; apply app_nil_r.
Qed.

(** C10: [abort] on a request that has no transport yet (it was
    constructed, perhaps configured, and not sent) does not return: the
    teardown reaches [this._transport.abort()] on [null] and a [TypeError]
    leaves the method. *)
Theorem abort_before_send_throws (id : nat) (s : State) (r : Request) :
  heap s !! id = Some r -> _transport r = None ->
  fst (on id (abort P id) s) = Throw TypeError.
Proof.
  intros H Ht. rewrite (abort_eq _ _ _ H). simpl.
  unfold cleanup_outcome. rewrite Ht. reflexivity.
Qed.



(** *** Sending and timing out *)

Lemma send_sent (id : nat) (s : State) (r : Request) :
  heap s !! id = Some r -> constructible P ->
  fst (on id (send P id) s) = Ret tt /\
  trace (snd (on id (send P id) s)) = trace s ++ send_effects id r /\
  exists r', heap (snd (on id (send P id) s)) !! id = Some r' /\
    _transport r' <> None /\ _finished r' = _finished r /\
    _timer r' = match timeout r with
                | Some t => if Z.eqb t 0 then _timer r else Some Pending
                | None => _timer r
                end.
Proof.
  intros H [k Hk]. rewrite (on_eq _ _ _ _ H). simpl.
  destruct (send_frame id (mkFrame r (_xhr s)))
    as [(C1 & C2 & C3 & _) | (O & _ & _ & T & F & Tm)].
  { destruct k; congruence. }
  split; [exact O | split].
  - rewrite (send_effects_eq _ _ O). reflexivity.
  - eexists. split.
    + apply list_lookup_insert_eq. eapply lookup_lt_Some; eassumption.
    + split; [exact T | split; [exact F | exact Tm]].
Qed.






(** C7: a [GET] request for [http://x/y] with payload [{a: "1"}] opens
    [http://x/y?a=1&__async__=true] (the payload first, then the injected
    marker, after a [?] since the URI has none) and sends no body and no
    content type; besides scheduling the timeout, if one is configured,
    these are all the effects of [send]. *)
Theorem send_GET_target (id : nat) (s : State) (r : Request) :
  heap s !! id = Some r ->
  URI r = "http://x/y" -> toUpperCase (method r) = "GET" ->
  data r = Some [("a", JStr "1")] ->
  constructible P ->
  fst (on id (send P id) s) = Ret tt /\
  trace (snd (on id (send P id) s)) =
    trace s ++
    match timeout r with
    | Some t => if Z.eqb t 0 then [] else [Defer id (-9000) t]
    | None => []
    end ++
    [XOpen id "GET" "http://x/y?a=1&__async__=true" true; XSend id None].
Proof.
  intros H Hu Hm Hd Hc.
  destruct (send_sent id s r H Hc) as (O & E & _).
  split; [exact O |]. rewrite E. f_equal.
  unfold send_effects, send_target, send_payload.
  rewrite Hu, Hm, Hd. reflexivity.
Qed.

(** *** Responses without the prefix *)



(** *** Shutdown *)

Lemma shutdown_entry_spec (ii : nat) (s : State) :
  registry_wf s ->
  List.length (_xhr (shutdown_entry P ii s)) = List.length (_xhr s) /\
  registry_wf (shutdown_entry P ii s) /\
  (forall j, j <> ii -> _xhr (shutdown_entry P ii s) !! j = _xhr s !! j) /\
  (exists out,
     trace (shutdown_entry P ii s) = trace s ++ out /\
     forall id, _xhr s !! ii = Some (Some id) ->
                In (Call (XAbort id)) out) /\
  (forall id, _xhr s !! ii = Some (Some id) ->
     exists r', heap (shutdown_entry P ii s) !! id = Some r' /\
                _finished r' = true) /\
  (forall id r, heap s !! id = Some r -> _finished r = true ->
     exists r', heap (shutdown_entry P ii s) !! id = Some r' /\
                _finished r' = true).
Proof.
  intros W. unfold shutdown_entry.
  destruct (_xhr s !! ii) as [[id |] |] eqn:E.
  2, 3: repeat split; try assumption; try discriminate; eauto;
        exists []; split; [symmetry; apply app_nil_r | discriminate].
  pose proof (on_registry_wf id (abort P id) s (sound__cleanup id) W) as W1.
  destruct (W ii id E) as (r & H & K & T).
  rewrite (abort_eq _ _ _ H) in *. simpl in *. rewrite K in *. simpl in *.
  assert (L : (id < List.length (heap s))%nat)
    by (eapply lookup_lt_Some; eassumption).
  split; [apply length_insert |]. split; [exact W1 |].
  split; [intros j Hj; apply list_lookup_insert_ne; congruence |].
  split; [| split].
  - eexists. split; [reflexivity |]. intros id' [= <-].
    unfold cleanup_effects. apply in_or_app. right.
    destruct (_transport r); [left; reflexivity | congruence].
  - intros id' [= <-]. exists (cleaned r).
    split; [apply list_lookup_insert_eq, L | reflexivity].
  - intros id' r' H' F'. destruct (decide (id = id')) as [<- | Hne].
    + exists (cleaned r).
      split; [apply list_lookup_insert_eq, L | reflexivity].
    + exists r'. rewrite list_lookup_insert_ne by assumption. tauto.
Qed.

Lemma shutdown_loop_spec (n ii : nat) (s : State) :
  registry_wf s -> List.length (_xhr s) = (ii + n)%nat ->
  (exists out,
     trace (shutdown_loop P n ii s) = trace s ++ out /\
     forall i id, (ii <= i)%nat -> _xhr s !! i = Some (Some id) ->
                  In (Call (XAbort id)) out) /\
  (forall i id, (ii <= i)%nat -> _xhr s !! i = Some (Some id) ->
     exists r', heap (shutdown_loop P n ii s) !! id = Some r' /\
                _finished r' = true) /\
  (forall id r, heap s !! id = Some r -> _finished r = true ->
     exists r', heap (shutdown_loop P n ii s) !! id = Some r' /\
                _finished r' = true).
Proof.
  revert ii s. induction n as [| n IH]; intros ii s W L; simpl.
  - split; [| split].
    + exists []. split; [symmetry; apply app_nil_r |].
      intros i id Hi H. apply lookup_lt_Some in H. lia.
    + intros i id Hi H. apply lookup_lt_Some in H. lia.
    + eauto.
  - destruct (shutdown_entry_spec ii s W)
      as (L1 & W1 & Same & (out1 & E1 & In1) & Fin1 & Mono1).
    destruct (IH (S ii) (shutdown_entry P ii s) W1 ltac:(lia))
      as ((out2 & E2 & In2) & Fin2 & Mono2).
    split; [| split].
    + exists (out1 ++ out2). split.
      * rewrite E2, E1. symmetry. apply app_assoc.
      * intros i id Hi H. apply in_or_app.
        destruct (decide (i = ii)) as [-> | Hne]; [left; eauto |].
        right. apply (In2 i id); [lia |]. rewrite Same by assumption.
        exact H.
    + intros i id Hi H. destruct (decide (i = ii)) as [-> | Hne].
      * destruct (Fin1 id H) as (r1 & H1 & F1). eauto.
      * apply (Fin2 i id); [lia |]. rewrite Same by assumption. exact H.
    + intros id r H F. destruct (Mono1 id r H F) as (r1 & H1 & F1). eauto.
Qed.

(** C6: from a well-formed registry (every slot holds a sent request whose
    key is that slot, as in every state the system reaches), [shutdown]
    calls [abort] on the transport of every registered request, whichever
    of these calls throw, leaves each of them finished, and leaves the
    registry empty. *)
Theorem shutdown_aborts_all (s : State) :
  registry_wf s ->
  _xhr (shutdown P s) = [] /\
  (exists out,
     trace (shutdown P s) = trace s ++ out /\
     forall i id, _xhr s !! i = Some (Some id) ->
                  In (Call (XAbort id)) out) /\
  (forall i id, _xhr s !! i = Some (Some id) ->
     exists r', heap (shutdown P s) !! id = Some r' /\ _finished r' = true).
Proof.
  intros W. unfold shutdown.
  destruct (shutdown_loop_spec (List.length (_xhr s)) 0 s W eq_refl)
    as ((out & E & Hin) & Fin & _).
  split; [reflexivity |]. split.
  - exists out. split; [exact E |]. intros i id H.
    apply (Hin i id); [lia | exact H].
  - intros i id H. apply (Fin i id); [lia | exact H].
Qed.

End Frames.

(** The length of the registry, which the loop of [shutdown] tests on
    every turn, does not change while it runs. *)
Lemma shutdown_entry_length (P : Platform) (ii : nat) (s : State) :
  List.length (_xhr (shutdown_entry P ii s)) = List.length (_xhr s).
Proof.
  unfold shutdown_entry.
  destruct (_xhr s !! ii) as [[id |] |]; try reflexivity.
  destruct (heap s !! id) as [r |] eqn:H.
  - rewrite (abort_eq P _ _ _ H). simpl.
    destruct (_xhrkey r); [apply length_insert | reflexivity].
  - unfold on. rewrite H. reflexivity.
Qed.

(** *** The theorems at sample states *)

Lemma browser_constructible (dev : bool) : constructible (browser dev).
Proof. exists XMLHttpRequest. reflexivity. Qed.

Lemma one_sent_reachable (P : Platform) (t : option Z) :
  reachable P (one_sent P t).
Proof.
  unfold one_sent, one_configured, run_all. cbn [foldl].
  repeat (apply reachable_run; [| try exact I]); [apply reachable_initial |].
  eexists. split; [reflexivity | split; reflexivity].
Qed.






Lemma shutdown_aborts_all_witness :
  throws flaky (XAbort 1) = true /\
  _xhr (three_sent flaky) = [Some 0; Some 1; Some 2]%nat /\
  _xhr (shutdown flaky (three_sent flaky)) = [] /\
  exists out,
    trace (shutdown flaky (three_sent flaky)) =
      trace (three_sent flaky) ++ out /\
    forall i id, _xhr (three_sent flaky) !! i = Some (Some id) ->
                 In (Call (XAbort id)) out.
Proof.
  split; [reflexivity | split; [reflexivity |]].
  assert (W : registry_wf (three_sent flaky)).
  { intros i id H.
    destruct i as [| [| [| i]]]; vm_compute in H; inversion H; subst;
      eexists; (split; [reflexivity | split; [reflexivity | discriminate]]). }
  destruct (shutdown_aborts_all flaky (three_sent flaky) W) as (E & T & _).
  split; [exact E | exact T].
Defined.

Lemma send_GET_target_witness :
  fst (on 0 (send (browser true) 0) (get_example (browser true))) = Ret tt /\
  trace (snd (on 0 (send (browser true) 0) (get_example (browser true)))) =
  [XOpen 0 "GET" "http://x/y?a=1&__async__=true" true; XSend 0 None].
Proof.
  exact (send_GET_target (browser true) 0 (get_example (browser true)) _
           eq_refl eq_refl eq_refl eq_refl (browser_constructible true)).
Defined.

Lemma abort_before_send_throws_witness :
  fst (on 0 (abort (browser true) 0)
         (one_configured (browser true) (Some 3000))) = Throw TypeError.
Proof.
  eapply (abort_before_send_throws (browser true) 0).
  - reflexivity.
  - reflexivity.
Defined.

End RequestFacts.

(** * Further properties of JX.Event *)

Module EventExtras.
Import Event.

Lemma to_int_not_nil (z : Z) :
  Z.to_int z <> Decimal.Pos Decimal.Nil /\
  Z.to_int z <> Decimal.Neg Decimal.Nil.
Proof.
  pose proof (DecimalZ.to_of (Z.to_int z)) as H.
  rewrite DecimalZ.of_to in H.
  split; intros E; rewrite E in H; discriminate H.
Qed.

Lemma number_to_string_inj (z1 z2 : Z) :
  number_to_string z1 = number_to_string z2 -> z1 = z2.
Proof.
  unfold number_to_string. intros H.
  destruct (to_int_not_nil z1) as [A1 B1].
  destruct (to_int_not_nil z2) as [A2 B2].
  pose proof (NilZero.isi _ A1 B1) as H1.
  pose proof (NilZero.isi _ A2 B2) as H2.
  rewrite H in H1. rewrite H1 in H2. injection H2 as H2.
  apply DecimalZ.to_int_inj. exact H2.
Qed.

(** The key codes of the shipped table. *)
Lemma _keymap_codes (z : Z) (v : jsval) :
  _keymap !! number_to_string z = Some v ->
  In z [8; 9; 13; 27; 37; 38; 39; 40; 63232; 63233; 62234; 62235].
Proof.
  intros H. apply elem_of_list_to_map_2 in H.
  repeat (apply elem_of_cons in H as [H | H];
          [injection H as H _;
           match type of H with
           | _ = ?k =>
               let z' := constr:(Z.of_int (match NilZero.int_of_string k with Some d => d | None => Decimal.Pos Decimal.Nil end)) in
               let z'' := eval vm_compute in z' in
               change k with (number_to_string z'') in H;
               apply number_to_string_inj in H; subst z; simpl; tauto
           end |]).
  inversion H.
Qed.

(** X1: without shift, [getSpecialKey] on the shipped table is the
    function [special_key_of] of the key code: a name for exactly the
    twelve codes of the table (eight primary, four alternate) and [null]
    for every other code. *)
Theorem getSpecialKey_is_the_table (e : Event) (r : RawEvent) (fuel : nat) :
  rawEvent e = Some r -> shiftKey r = false ->
  getSpecialKey _keymap (2 + fuel) e = Some (special_key_of (keyCode r)).
Proof.
  intros Hr Hs. unfold getSpecialKey. rewrite Hr, Hs.
  generalize (keyCode r). clear. intros z.
  destruct (_keymap !! number_to_string z) as [v |] eqn:E.
  - apply _keymap_codes in E. simpl in E.
    repeat (destruct E as [<- | E]; [vm_compute; reflexivity |]).
    destruct E.
  - change (2 + fuel)%nat with (S (S fuel)). rewrite EventFacts.resolve_S.
    unfold keymap_get at 1. cbv zeta. simpl js_to_string. rewrite E.
    simpl.
    assert (N : ~ In z [8; 9; 13; 27; 37; 38; 39; 40; 63232; 63233; 62234; 62235]).
    { intros HIn. simpl in HIn.
      repeat (destruct HIn as [<- | HIn]; [vm_compute in E; discriminate E |]).
      destruct HIn. }
    simpl in N.
    unfold special_key_of.
    repeat match goal with
    | |- context [match ?x with _ => _ end] => is_var x; destruct x
    end; try reflexivity; exfalso; tauto.
Qed.

Lemma apply_call_flags (c : method_call) (e : Event) :
  stopped (apply_call c e) = stopped e || sets_stopped c /\
  prevented (apply_call c e) = prevented e || sets_prevented c.
Proof.
  destruct c, e as [[r |] ty tg d p st pr n]; simpl;
    rewrite ?orb_true_r, ?orb_false_r; split; reflexivity.
Qed.

(** X2: after any sequence of [stop], [prevent] and [kill] the flag
    [stopped] is set exactly if it was set before or the sequence has a
    [stop] or a [kill], and [prevented] exactly if it was set before or the
    sequence has a [prevent] or a [kill]: no method resets a flag. *)
Theorem flags_never_reset (l : list method_call) (e : Event) :
  stopped (apply_calls l e) = stopped e || existsb sets_stopped l /\
  prevented (apply_calls l e) = prevented e || existsb sets_prevented l.
Proof.
  unfold apply_calls. revert e. induction l as [| c l IH]; intros e; simpl.
  - rewrite !orb_false_r. split; reflexivity.
  - destruct (IH (apply_call c e)) as [-> ->].
    destruct (apply_call_flags c e) as [-> ->].
    rewrite !orb_assoc. split; reflexivity.
Qed.

(** X3: [stop] and [prevent] can be called in either order: the events
    agree in every field, and the native calls made are the same up to
    their order. *)
Theorem stop_prevent_commute (e : Event) :
  without_calls (stop (prevent e)) = without_calls (prevent (stop e)) /\
  Permutation (calls_of (stop (prevent e))) (calls_of (prevent (stop e))).
Proof.
  destruct e as [[[cb rv sp pd sk kc nc] |] ty tg d p st pr n];
    unfold without_calls, calls_of, stop, prevent; simpl;
    (split; [reflexivity |]); [| reflexivity].
  destruct sp, pd; simpl; rewrite <- ?app_assoc; try reflexivity.
  apply Permutation_app_head. simpl. apply perm_swap.
Qed.

Lemma getSpecialKey_is_the_table_witness :
  getSpecialKey _keymap 2 (key_event 62234 false) = Some (JStr "left") /\
  getSpecialKey _keymap 2 (key_event 63234 false) = Some JNull.
Proof.
  split.
  - exact (getSpecialKey_is_the_table (key_event 62234 false) _ 0
             eq_refl eq_refl).
  - exact (getSpecialKey_is_the_table (key_event 63234 false) _ 0
             eq_refl eq_refl).
Defined.

End EventExtras.

(** * Further properties of JX.Request *)

Module RequestExtras.
Import Request RequestFacts.
Local Open Scope list_scope.

Section Extras.

Variable P : Platform.

Lemma state_eta (s : State) : mkState (heap s) (_xhr s) (trace s) = s.
Proof. destruct s; reflexivity. Qed.

(** X4: when none of the three transport constructors works, [send]
    throws and has changed nothing: the request is not registered, has no
    key and no timer, and nothing was asked of the platform. *)
Theorem send_without_transport (id : nat) (s : State) (r : Request) :
  heap s !! id = Some r ->
  can_construct P XMLHttpRequest = false ->
  can_construct P Msxml2_XMLHTTP = false ->
  can_construct P Microsoft_XMLHTTP = false ->
  on id (send P id) s = (Throw NoTransport, s).
Proof.
  intros H C1 C2 C3. rewrite (on_eq _ _ _ _ H).
  destruct (send_frame P id (mkFrame r (_xhr s)))
    as [(_ & _ & _ & E) | (O & _)].
  - rewrite E. unfold outcome_of, frame_of, effects_of; simpl.
    rewrite (list_insert_id _ _ _ H), app_nil_r, state_eta. reflexivity.
  - exfalso. revert O. unfold send, new_transport. rewrite C1, C2, C3.
    discriminate.
Qed.





Lemma obj_get_set (o : obj) (k k' : string) (v : jsval) :
  obj_get (obj_set o k v) k' = if String.eqb k k' then v else obj_get o k'.
Proof.
  induction o as [| [k0 v0] o IH]; simpl.
  - destruct (String.eqb k k'); reflexivity.
  - destruct (String.eqb_spec k0 k) as [-> | Hne]; simpl.
    + destruct (String.eqb k k'); reflexivity.
    + rewrite IH. destruct (String.eqb_spec k0 k') as [-> | Hne'];
        [| reflexivity].
      destruct (String.eqb_spec k k') as [-> | _]; [contradiction |].
      reflexivity.
Qed.

Lemma obj_set_keys (o : obj) (k : string) (v : jsval) :
  map fst (obj_set o k v) =
  if existsb (fun kv => String.eqb (fst kv) k) o then map fst o
  else map fst o ++ [k].
Proof.
  induction o as [| [k0 v0] o IH]; simpl; [reflexivity |].
  destruct (String.eqb k0 k); simpl; [reflexivity |].
  rewrite IH. destruct (existsb _ o); reflexivity.
Qed.

Lemma send_data (id : nat) (f : Frame) :
  outcome_of (send P id f) = Ret tt ->
  data (this (frame_of (send P id f))) =
    option_map (fun _ => send_payload (this f)) (data (this f)) /\
  URI (this (frame_of (send P id f))) = URI (this f) /\
  method (this (frame_of (send P id f))) = method (this f) /\
  raw (this (frame_of (send P id f))) = raw (this f) /\
  timeout (this (frame_of (send P id f))) = timeout (this f).
Proof.
  destruct f as [[u d m rw tm key xp fin tim] xhr].
  unfold send, new_transport, send_payload.
  destruct (can_construct P XMLHttpRequest);
    [| destruct (can_construct P Msxml2_XMLHTTP);
       [| destruct (can_construct P Microsoft_XMLHTTP);
          [| discriminate ]]];
    intros _; monad;
    destruct d as [d |], tm as [t |]; try destruct (Z.eqb t 0); monad;
    simpl; destruct (String.eqb (toUpperCase m) "POST"); simpl;
    repeat split; reflexivity.
Qed.

(** X8: the payload that [send] serializes has [__async__] = [true],
    whatever the caller had put there, and every other key with the value
    it had; the marker is written into the payload object of the request
    itself (a request without payload keeps none), and [send] changes no
    other property. *)
Theorem send_marks_payload (id : nat) (s : State) (r : Request) :
  heap s !! id = Some r -> constructible P ->
  obj_get (send_payload r) "__async__" = JBool true /\
  (forall k, k <> "__async__" ->
     obj_get (send_payload r) k = obj_get (default [] (data r)) k) /\
  exists r', heap (snd (on id (send P id) s)) !! id = Some r' /\
    data r' = option_map (fun _ => send_payload r) (data r) /\
    URI r' = URI r /\ method r' = method r /\ raw r' = raw r /\
    timeout r' = timeout r.
Proof.
  intros H Hc. unfold send_payload at 1 2. split; [| split].
  - rewrite obj_get_set. reflexivity.
  - intros k Hk. rewrite obj_get_set.
    destruct (String.eqb_spec "__async__" k); [congruence | reflexivity].
  - destruct (send_sent P id s r H Hc) as (O & _).
    rewrite (on_eq _ _ _ _ H) in *. simpl in *.
    eexists. split.
    + apply list_lookup_insert_eq. eapply lookup_lt_Some; eassumption.
    + exact (send_data id _ O).
Qed.

(** X9: a timeout of 0 counts as no timeout: [send] schedules no timer,
    and the passing of the delay does nothing. *)
Theorem send_zero_timeout (id : nat) (s : State) (r : Request) :
  heap s !! id = Some r -> _timer r = None ->
  timeout r = None \/ timeout r = Some 0 ->
  constructible P ->
  (forall e t, In (Defer id e t) (send_effects id r) -> False) /\
  trace (run P (Send id) s) = trace s ++ send_effects id r /\
  trace (run P (TimerFires id) (run P (Send id) s)) =
    trace (run P (Send id) s).
Proof.
  intros H Htm Ht Hc.
  destruct (send_sent P id s r H Hc) as (_ & E & r' & H' & _ & _ & Tm').
  split; [| split].
  - intros e t. unfold send_effects.
    destruct Ht as [-> | ->]; simpl;
      destruct (String.eqb (toUpperCase (method r)) "POST"); simpl;
      intuition discriminate.
  - exact E.
  - apply (timer_not_waiting P id _ r' H').
    rewrite Tm'. destruct Ht as [-> | ->]; simpl; rewrite Htm; discriminate.
Qed.

(** *** The query string *)

Lemma hex_digit_unreserved (n : N) : unreserved (hex_digit n) = true.
Proof.
  unfold hex_digit. generalize (N.to_nat n). intros k.
  do 16 (destruct k as [| k]; [reflexivity |]). reflexivity.
Qed.

Lemma count_char_app (c : ascii) (s1 s2 : string) :
  count_char c (s1 ++ s2)%string = (count_char c s1 + count_char c s2)%nat.
Proof.
  induction s1 as [| c1 s1 IH]; simpl; [reflexivity |].
  rewrite IH. destruct (Ascii.eqb c1 c); reflexivity.
Qed.

Lemma count_unreserved (c c' : ascii) :
  unreserved c = false -> unreserved c' = true -> Ascii.eqb c' c = false.
Proof.
  intros H H'. destruct (Ascii.eqb_spec c' c) as [-> | _]; congruence.
Qed.

Lemma count_percent (c : ascii) (b : N) :
  unreserved c = false -> c <> "%"%char -> count_char c (percent b) = O.
Proof.
  intros Hc Hp. unfold percent. cbn [count_char].
  assert (Ascii.eqb "%" c = false) as ->
    by (destruct (Ascii.eqb_spec "%" c); congruence).
  rewrite !(count_unreserved c _ Hc (hex_digit_unreserved _)). reflexivity.
Qed.

Lemma count_encode_unit (c c0 : ascii) :
  unreserved c = false -> c <> "%"%char ->
  count_char c (encode_unit c0) = O.
Proof.
  intros Hc Hp. unfold encode_unit.
  destruct (unreserved c0) eqn:U; [| destruct (N_of_ascii c0 <? 128)%N].
  - cbn [count_char]. rewrite (count_unreserved c c0 Hc U). reflexivity.
  - apply count_percent; assumption.
  - rewrite count_char_app, !count_percent by assumption. reflexivity.
Qed.

Lemma count_encodeURIComponent (c : ascii) (s : string) :
  unreserved c = false -> c <> "%"%char ->
  count_char c (encodeURIComponent s) = O.
Proof.
  intros Hc Hp. induction s as [| c0 s IH]; simpl; [reflexivity |].
  rewrite count_char_app, IH, count_encode_unit by assumption. reflexivity.
Qed.

Lemma count_query_string (c : ascii) (d : obj) :
  unreserved c = false -> c <> "%"%char ->
  count_char c (query_string d) =
  (List.length d * (if Ascii.eqb "=" c then 1 else 0) +
   (List.length d - 1) * (if Ascii.eqb "&" c then 1 else 0))%nat.
Proof.
  intros Hc Hp. unfold query_string.
  induction d as [| kv d IH]; [reflexivity |].
  assert (E : count_char c
                (encodeURIComponent (fst kv) ++ "=" ++
                 encodeURIComponent (js_to_string (snd kv)))%string
              = if Ascii.eqb "=" c then 1%nat else 0%nat).
  { rewrite !count_char_app, !count_encodeURIComponent by assumption.
    cbn [count_char]. destruct (Ascii.eqb "=" c); reflexivity. }
  destruct d as [| kv' d].
  - cbn [map join]. rewrite E. simpl. lia.
  - cbn [map] in *. cbn [join]. cbn [join] in IH.
    rewrite count_char_app, E, count_char_app, IH.
    cbn [count_char List.length].
    destruct (Ascii.eqb "=" c), (Ascii.eqb "&" c); lia.
Qed.

(** X10: the query string of a payload with [n] entries has exactly [n]
    equals signs and [n - 1] ampersands, and no [?] or [#]: keys and values
    cannot break its framing, since [encodeURIComponent] escapes these
    characters. *)
Theorem query_string_framing (d : obj) :
  count_char "=" (query_string d) = List.length d /\
  count_char "&" (query_string d) = (List.length d - 1)%nat /\
  count_char "?" (query_string d) = O /\
  count_char "#" (query_string d) = O.
Proof.
  rewrite !count_query_string by (reflexivity || discriminate).
  simpl. repeat split; lia.
Qed.

Lemma nominal_test (st : Z) :
  nominal st -> Z.ltb st 200 || Z.leb 300 st = false.
Proof. unfold nominal. lia. Qed.

Lemma not_nominal_test (st : Z) :
  ~ nominal st -> Z.ltb st 200 || Z.leb 300 st = true.
Proof. unfold nominal. lia. Qed.




Lemma progress_eq (id : nat) (rs st : Z) (txt : string) (s : State)
    (r : Request) :
  heap s !! id = Some r ->
  run P (Progress id rs st txt) s =
  mkState
    (<[id := this (frame_of (on_progress P id rs st txt
                               (mkFrame r (_xhr s))))]> (heap s))
    (registry (frame_of (on_progress P id rs st txt (mkFrame r (_xhr s)))))
    (trace s ++ effects_of (on_progress P id rs st txt (mkFrame r (_xhr s)))).
Proof. intros H. simpl. rewrite (on_eq _ _ _ _ H). reflexivity. Qed.



Lemma read_response_accepted (id : nat) (r : Request)
    (xhr : list (option nat)) (x : Transport) (txt : string)
    (response : jsval) :
  _transport r = Some x -> readyState x = 4 -> nominal (status x) ->
  responseText x = txt -> _finished r = false ->
  passes_checks P txt ->
  js_eval P (eval_source txt) = Some response ->
  read_response P id (mkFrame r xhr) =
  (Ret (Some response), mkFrame r xhr, []).
Proof.
  intros Ht Hrs Hn Htxt Hf Hp He.
  destruct r as [u d m rw tm key xp fin tim]; simpl in Ht, Hf; subst.
  destruct x as [k rs st txt]; simpl in *; subst.
  apply nominal_test in Hn. unfold eval_source in He.
  destruct (DEV P) eqn:HD;
    [destruct Hp as [Hp | [Hl Hpre]]; [congruence |]
    | pose proof I as Hl; pose proof I as Hpre];
  unfold read_response; monad;
  change (negb (4 =? 4)%Z) with false; monad;
  rewrite Hn, ?HD; monad; rewrite ?Hl; monad; rewrite ?Hpre; cbn [negb];
  monad; rewrite He; reflexivity.
Qed.

Lemma _onreadystatechange_eq (id : nat) :
  _onreadystatechange P id =
  bind
    (try_catch (read_response P id)
       (fun exception =>
          bind (if DEV P
                then bind get_this (fun r => emit (Log (URI r) exception))
                else ret tt)
            (fun _ => bind (_fail P id JUndefined) (fun _ => ret None))))
    (fun response =>
       match response with
       | None => ret tt
       | Some response => deliver_response P id response
       end).
Proof. reflexivity. Qed.

(** A nominal response that gets past the checks and evaluates goes to the
    second block, with nothing done before. *)
Lemma accepted_frame (id : nat) (r : Request) (xhr : list (option nat))
    (st : Z) (txt : string) (response : jsval) :
  _transport r <> None -> _finished r = false ->
  nominal st -> passes_checks P txt ->
  js_eval P (eval_source txt) = Some response ->
  on_progress P id 4 st txt (mkFrame r xhr) =
  deliver_response P id response (mkFrame (progress 4 st txt r) xhr).
Proof.
  intros Ht Hf Hn Hp He.
  destruct (_transport r) as [x |] eqn:Hx; [| congruence].
  unfold on_progress. unfold bind at 1. unfold set_this at 1.
  cbn [this registry]. rewrite _onreadystatechange_eq.
  unfold bind at 1, try_catch at 1.
  rewrite (read_response_accepted id _ xhr
             (mkTransport (kind x) 4 st txt) txt response);
    try reflexivity; try assumption.
  all: try (unfold progress; rewrite Hx; reflexivity).
  all: try (destruct r; simpl in *; assumption).
  destruct (deliver_response P id response _) as [[res f'] out].
  reflexivity.
Qed.


Lemma progress_finished_flag (rs st : Z) (txt : string) (r : Request) :
  _finished (progress rs st txt r) = _finished r.
Proof. destruct r; reflexivity. Qed.

Lemma lookup_insert_here (id : nat) (s : State) (r r' : Request) :
  heap s !! id = Some r -> <[id := r']> (heap s) !! id = Some r'.
Proof.
  intros H. apply list_lookup_insert_eq. eapply lookup_lt_Some; eassumption.
Qed.


(** What the second block does in its three ways of not delivering. *)
Lemma deliver_unreadable (id : nat) (response : jsval) (f : Frame) :
  js_get response "error" = None ->
  deliver_response P id response f = (Ret tt, f, [DeferThrow TypeError]).
Proof.
  intros H. unfold deliver_response. monad. rewrite H. reflexivity.
Qed.


(** X12: a completed 2xx response that evaluates to [null] or
    [undefined] notifies nobody and tears nothing down: reading its [error]
    throws inside the second [try], the exception is deferred, and the
    request stays in flight, registered and with its timer as it was. *)
Theorem null_response_left_in_flight (id : nat) (s : State) (r : Request)
    (st : Z) (txt : string) (response : jsval) :
  heap s !! id = Some r -> _transport r <> None -> _finished r = false ->
  nominal st -> passes_checks P txt ->
  js_eval P (eval_source txt) = Some response ->
  js_get response "error" = None ->
  run P (Progress id 4 st txt) s =
  mkState (<[id := progress 4 st txt r]> (heap s)) (_xhr s)
    (trace s ++ [DeferThrow TypeError]).
Proof.
  intros H Ht Hf Hn Hp He Hnull. rewrite (progress_eq _ _ _ _ _ _ H).
  rewrite (accepted_frame id r _ st txt response) by assumption.
  rewrite deliver_unreadable by assumption. reflexivity.
Qed.





Lemma bad_status_frame (id : nat) (r : Request) (xhr : list (option nat))
    (st : Z) (txt : string) :
  _transport r <> None -> _finished r = false ->
  throws P (XAbort id) = false -> ~ nominal st ->
  In (Call (Invoke id Error [JUndefined]))
    (effects_of (on_progress P id 4 st txt (mkFrame r xhr))) /\
  (forall e, In e (effects_of (on_progress P id 4 st txt (mkFrame r xhr))) ->
     match e with
     | Call (Invoke _ Done _) | Call (MergeData _) | Call (InitBehaviors _)
     | Call (RunOnload _) => False
     | _ => True
     end) /\
  _finished (this (frame_of (on_progress P id 4 st txt (mkFrame r xhr))))
    = true /\
  (throws P (Invoke id Error [JUndefined]) = true ->
   notifications (effects_of (on_progress P id 4 st txt (mkFrame r xhr))) =
     [(id, Error, [JUndefined]); (id, Error, [JUndefined])] /\
   outcome_of (on_progress P id 4 st txt (mkFrame r xhr)) =
     Throw (Raised (Invoke id Error [JUndefined]))).
Proof.
  intros Ht Hf Hx Hn. apply not_nominal_test in Hn.
  destruct r as [u d m rw tm key [x |] fin tim]; simpl in Ht, Hf;
    [| congruence]; subst.
  destruct (throws P (Invoke id Error [JUndefined])) eqn:HE;
  destruct (throws P (Invoke id Finally [])) eqn:HF;
  destruct (DEV P) eqn:HD;
  unfold on_progress, _onreadystatechange, read_response; monad;
  change (negb (4 =? 4)%Z) with false; monad; rewrite Hn;
  repeat (monad; cbn [negb]; rewrite ?_fail_eq;
          unfold cleanup_outcome, cleanup_frame, cleaned,
            fail_notices_outcome, fail_notices, cleanup_effects;
          monad; rewrite ?Hx, ?HE, ?HF, ?HD);
  destruct tim; simpl;
  (split; [tauto |
   split; [intros e He; repeat (destruct He as [<- | He]; [exact I |]);
           destruct He |
   split; [reflexivity |
           try discriminate; intros _; split; reflexivity]]]).
Qed.

(** X16: a completed response with a status outside 200..299 is
    reported on [Error] with [undefined], whatever its body: nothing is
    reported on [Done], merged, run or initialized, and the request is
    finished. *)
Theorem bad_status_fails (id : nat) (s : State) (r : Request) (st : Z)
    (txt : string) :
  heap s !! id = Some r -> _transport r <> None -> _finished r = false ->
  throws P (XAbort id) = false -> ~ nominal st ->
  exists out,
    trace (run P (Progress id 4 st txt) s) = trace s ++ out /\
    In (Call (Invoke id Error [JUndefined])) out /\
    (forall e, In e out ->
       match e with
       | Call (Invoke _ Done _) | Call (MergeData _)
       | Call (InitBehaviors _) | Call (RunOnload _) => False
       | _ => True
       end) /\
    exists r', heap (run P (Progress id 4 st txt) s) !! id = Some r' /\
               _finished r' = true.
Proof.
  intros H Ht Hf Hx Hn. rewrite (progress_eq _ _ _ _ _ _ H). simpl.
  destruct (bad_status_frame id r (_xhr s) st txt Ht Hf Hx Hn)
    as (E & N & F & _).
  eexists. split; [reflexivity |]. split; [exact E |]. split; [exact N |].
  eexists. split; [apply (lookup_insert_here _ _ _ _ H) | exact F].
Qed.

(** X17: [_fail] for a status outside 200..299 runs inside the first
    [try]; when the subscriber of [Error] throws, the [catch] of that block
    calls [_fail] again, so [Error] is notified a second time, and the
    second exception leaves the handler. *)
Theorem error_subscriber_throws_twice (id : nat) (s : State) (r : Request)
    (st : Z) (txt : string) :
  heap s !! id = Some r -> _transport r <> None -> _finished r = false ->
  throws P (XAbort id) = false -> ~ nominal st ->
  throws P (Invoke id Error [JUndefined]) = true ->
  notifications (trace (run P (Progress id 4 st txt) s)) =
    notifications (trace s) ++
    [(id, Error, [JUndefined]); (id, Error, [JUndefined])] /\
  fst (on id (on_progress P id 4 st txt) s) =
    Throw (Raised (Invoke id Error [JUndefined])).
Proof.
  intros H Ht Hf Hx Hn HE.
  destruct (bad_status_frame id r (_xhr s) st txt Ht Hf Hx Hn)
    as (_ & _ & _ & T). destruct (T HE) as [N O].
  rewrite (progress_eq _ _ _ _ _ _ H), (on_eq _ _ _ _ H). simpl.
  rewrite notifications_app, N. split; [reflexivity | exact O].
Qed.

Lemma abort_silent (id : nat) (s : State) :
  notifications (trace (snd (on id (abort P id) s))) =
  notifications (trace s).
Proof.
  destruct (heap s !! id) as [r |] eqn:H.
  - rewrite (abort_eq P _ _ _ H). simpl.
    rewrite notifications_app, notifications_cleanup. apply app_nil_r.
  - unfold on. rewrite H. reflexivity.
Qed.



Lemma shutdown_loop_silent (n ii : nat) (s : State) :
  notifications (trace (shutdown_loop P n ii s)) = notifications (trace s).
Proof.
  revert ii s. induction n as [| n IH]; intros ii s; [reflexivity |].
  simpl. rewrite IH. unfold shutdown_entry.
  destruct (_xhr s !! ii) as [[id |] |]; try reflexivity.
  apply abort_silent.
Qed.

(** X19: [shutdown] notifies no subscriber, and a second [shutdown]
    right after changes nothing. *)
Theorem shutdown_notifies_nobody (s : State) :
  notifications (trace (shutdown P s)) = notifications (trace s) /\
  shutdown P (shutdown P s) = shutdown P s.
Proof.
  split; [apply shutdown_loop_silent | reflexivity].
Qed.

(** [shutdown] calls [abort] only on transports of requests that are in
    the registry when it starts. *)
Lemma shutdown_entry_registered (ii : nat) (s : State) :
  (forall j id, _xhr (shutdown_entry P ii s) !! j = Some (Some id) ->
                _xhr s !! j = Some (Some id)) /\
  exists out, trace (shutdown_entry P ii s) = trace s ++ out /\
    forall id, In (Call (XAbort id)) out ->
               exists j, _xhr s !! j = Some (Some id).
Proof.
  unfold shutdown_entry. destruct (_xhr s !! ii) as [[id |] |] eqn:E.
  2, 3: split; [tauto |]; exists []; split;
        [symmetry; apply app_nil_r | intros id' []].
  destruct (heap s !! id) as [r |] eqn:H.
  - rewrite (abort_eq P _ _ _ H). simpl. split.
    + intros j id'. apply registry_delete_lookup.
    + eexists. split; [reflexivity |]. intros id' Hin.
      unfold cleanup_effects in Hin. apply in_app_or in Hin.
      destruct Hin as [Hin | Hin].
      * destruct (_timer r); simpl in Hin; intuition discriminate.
      * destruct (_transport r); simpl in Hin; [| destruct Hin].
        destruct Hin as [[= <-] | []]. eauto.
  - unfold on. rewrite H. simpl. split; [tauto |]. exists [].
    split; [symmetry; apply app_nil_r | intros id' []].
Qed.

Lemma shutdown_loop_registered (n ii : nat) (s : State) :
  exists out, trace (shutdown_loop P n ii s) = trace s ++ out /\
    forall id, In (Call (XAbort id)) out ->
               exists j, _xhr s !! j = Some (Some id).
Proof.
  revert ii s. induction n as [| n IH]; intros ii s; simpl.
  - exists []. split; [symmetry; apply app_nil_r | intros id []].
  - destruct (shutdown_entry_registered ii s) as (Sub & out1 & E1 & In1).
    destruct (IH (S ii) (shutdown_entry P ii s)) as (out2 & E2 & In2).
    exists (out1 ++ out2). split.
    + rewrite E2, E1. symmetry. apply app_assoc.
    + intros id Hin. apply in_app_or in Hin. destruct Hin as [Hin | Hin].
      * apply In1, Hin.
      * destruct (In2 id Hin) as (j & Hj). exists j. apply Sub, Hj.
Qed.

(** X20: the key of a request outlives the registry it was given for.
    When request [a] still carries key [k] and slot [k] by now holds
    another request [b], [abort] on [a] empties that slot: [b] itself is
    untouched, is in the registry no more, and a following [shutdown] does
    not abort it. *)
Theorem abort_frees_reused_slot (a b k : nat) (s : State)
    (ra rb : Request) :
  heap s !! a = Some ra -> heap s !! b = Some rb -> a <> b ->
  _xhrkey ra = Some k -> _xhr s !! k = Some (Some b) ->
  (forall j, j <> k -> _xhr s !! j <> Some (Some b)) ->
  heap (run P (Abort a) s) !! b = Some rb /\
  (forall j, _xhr (run P (Abort a) s) !! j <> Some (Some b)) /\
  exists out,
    trace (shutdown P (run P (Abort a) s)) =
      trace (run P (Abort a) s) ++ out /\
    ~ In (Call (XAbort b)) out.
Proof.
  intros Ha Hb Hab Hk Hslot Honly.
  assert (Hreg : forall j, _xhr (run P (Abort a) s) !! j <> Some (Some b)).
  { intros j Hj. simpl in Hj. rewrite (abort_eq P _ _ _ Ha) in Hj.
    simpl in Hj. rewrite Hk in Hj. simpl in Hj.
    apply list_lookup_insert_Some in Hj.
    destruct Hj as [(_ & [=] & _) | [Hne Hj]].
    exact (Honly j ltac:(congruence) Hj). }
  split; [| split; [exact Hreg |]].
  - simpl. rewrite (abort_eq P _ _ _ Ha). simpl.
    rewrite list_lookup_insert_ne by assumption. exact Hb.
  - unfold shutdown.
    destruct (shutdown_loop_registered
                (List.length (_xhr (run P (Abort a) s))) 0
                (run P (Abort a) s)) as (out & E & Hin).
    exists out. split; [exact E |].
    intros Hb'. destruct (Hin b Hb') as (j & Hj). exact (Hreg j Hj).
Qed.

(** *** What no action undoes *)

Lemma on_keeps (id id' : nat) {A} (m : M A) (s : State) (r : Request) :
  sound m -> heap s !! id' = Some r ->
  exists r', heap (snd (on id m s)) !! id' = Some r' /\
    (_finished r = true -> _finished r' = true) /\
    (_transport r <> None -> _transport r' <> None).
Proof.
  intros Hm H. destruct (heap s !! id) as [r0 |] eqn:H0.
  2: { unfold on. rewrite H0. eauto. }
  rewrite (on_eq _ _ _ _ H0). simpl.
  destruct (decide (id = id')) as [<- | Hne].
  - eexists. split.
    + apply list_lookup_insert_eq. eapply lookup_lt_Some; eassumption.
    + assert (r0 = r) as -> by congruence.
      destruct (Hm (mkFrame r (_xhr s))) as (_ & T & _ & F & _).
      simpl in *. tauto.
  - exists r. rewrite list_lookup_insert_ne by assumption. tauto.
Qed.

Lemma send_keeps (id id' : nat) (s : State) (r : Request) :
  heap s !! id' = Some r ->
  exists r', heap (snd (on id (send P id) s)) !! id' = Some r' /\
    (_finished r = true -> _finished r' = true) /\
    (_transport r <> None -> _transport r' <> None).
Proof.
  intros H. destruct (heap s !! id) as [r0 |] eqn:H0.
  2: { unfold on. rewrite H0. eauto. }
  rewrite (on_eq _ _ _ _ H0). simpl.
  destruct (decide (id = id')) as [<- | Hne].
  - assert (r0 = r) as -> by congruence. eexists. split.
    + apply list_lookup_insert_eq. eapply lookup_lt_Some; eassumption.
    + destruct (send_frame P id (mkFrame r (_xhr s)))
        as [(_ & _ & _ & E) | (_ & _ & _ & T & F & _)].
      * rewrite E. unfold frame_of. simpl. tauto.
      * simpl in F. rewrite F. tauto.
  - exists r. rewrite list_lookup_insert_ne by assumption. tauto.
Qed.

Lemma shutdown_loop_keeps (n ii id : nat) (s : State) (r : Request) :
  heap s !! id = Some r ->
  exists r', heap (shutdown_loop P n ii s) !! id = Some r' /\
    (_finished r = true -> _finished r' = true) /\
    (_transport r <> None -> _transport r' <> None).
Proof.
  revert ii s r. induction n as [| n IH]; intros ii s r H; simpl; [eauto |].
  assert (exists r1, heap (shutdown_entry P ii s) !! id = Some r1 /\
            (_finished r = true -> _finished r1 = true) /\
            (_transport r <> None -> _transport r1 <> None))
    as (r1 & H1 & F1 & T1).
  { unfold shutdown_entry. destruct (_xhr s !! ii) as [[id0 |] |]; eauto.
    apply on_keeps; [apply sound__cleanup | exact H]. }
  destruct (IH (S ii) _ r1 H1) as (r2 & H2 & F2 & T2).
  exists r2. split; [exact H2 | tauto].
Qed.

(** X21: no action undoes these: a request stays in the heap, a finished
    request stays finished, and a request that has a transport keeps
    one. *)
Theorem never_reset (a : action) (id : nat) (s : State) (r : Request) :
  heap s !! id = Some r ->
  exists r', heap (run P a s) !! id = Some r' /\
    (_finished r = true -> _finished r' = true) /\
    (_transport r <> None -> _transport r' <> None).
Proof.
  intros H. destruct a; simpl.
  - exists r. split; [apply lookup_app_l_Some, H | tauto].
  - apply on_keeps; [apply sound_setter | exact H].
  - apply send_keeps, H.
  - apply on_keeps; [apply sound__cleanup | exact H].
  - apply on_keeps; [apply sound_on_progress | exact H].
  - apply on_keeps; [apply sound_on_timer | exact H].
  - unfold shutdown. simpl. apply shutdown_loop_keeps, H.
Qed.

(** X22: in every state the system reaches, each slot of the registry
    holds a sent request whose key is that slot, no request is in two
    slots, and no finished request has a waiting timer. *)
Theorem reachable_well_formed (s : State) :
  reachable P s ->
  (forall i id, _xhr s !! i = Some (Some id) ->
     exists r, heap s !! id = Some r /\ _xhrkey r = Some i /\
               _transport r <> None) /\
  (forall i j id, _xhr s !! i = Some (Some id) ->
     _xhr s !! j = Some (Some id) -> i = j) /\
  (forall id r, heap s !! id = Some r -> _finished r = true ->
     _timer r <> Some Pending).
Proof.
  intros Hs. destruct (reachable_invariant P s Hs) as [I1 I2].
  split; [exact I2 | split; [| exact I1]].
  intros i j id Hi Hj.
  destruct (I2 i id Hi) as (r & H & K & _).
  destruct (I2 j id Hj) as (r' & H' & K' & _). congruence.
Qed.

End Extras.

(** *** A platform handle whose [abort] throws *)

Section Throwing.
Variable P : Platform.
Variable id : nat.
Hypothesis Hx : throws P (XAbort id) = true.

Lemma mute_ret {A} (a : A) : mute (ret a).
Proof. intros f Ht. split; [reflexivity | exact Ht]. Qed.

Lemma mute_throw {A} (x : exn) : mute (@throw A x).
Proof. intros f Ht. split; [reflexivity | exact Ht]. Qed.

Lemma mute_get_this : mute get_this.
Proof. intros f Ht. split; [reflexivity | exact Ht]. Qed.

Lemma mute_emit (e : effect) : notification e = None -> mute (emit e).
Proof.
  intros He f Ht. split; [| exact Ht].
  destruct e as [[] | | | | | | |]; try discriminate He; reflexivity.
Qed.

Lemma mute_call_out (c : call) :
  notification (Call c) = None -> mute (call_out P c).
Proof.
  intros He f Ht. split; [| exact Ht].
  destruct c; try discriminate He; reflexivity.
Qed.

Lemma mute_bind {A B} (m : M A) (k : A -> M B) :
  mute m -> (forall a, mute (k a)) -> mute (bind m k).
Proof.
  intros Hm Hk f Ht. destruct (Hm f Ht) as [N T].
  unfold bind, frame_of, effects_of in *.
  destruct (m f) as [[[a | x] f1] out1]; simpl in *; [| tauto].
  destruct (Hk a f1 T) as [N2 T2]. unfold frame_of, effects_of in *.
  destruct (k a f1) as [[res f2] out2]. simpl in *.
  rewrite notifications_app, N, N2. tauto.
Qed.

Lemma mute_try_catch {A} (m : M A) (h : exn -> M A) :
  mute m -> (forall x, mute (h x)) -> mute (try_catch m h).
Proof.
  intros Hm Hh f Ht. destruct (Hm f Ht) as [N T].
  unfold try_catch, frame_of, effects_of in *.
  destruct (m f) as [[[a | x] f1] out1]; simpl in *; [tauto |].
  destruct (Hh x f1 T) as [N2 T2]. unfold frame_of, effects_of in *.
  destruct (h x f1) as [[res f2] out2]. simpl in *.
  rewrite notifications_app, N, N2. tauto.
Qed.

Lemma mute_set_this (g : Request -> Request) :
  (forall r, _transport r <> None -> _transport (g r) <> None) ->
  mute (set_this g).
Proof. intros Hg f Ht. split; [reflexivity | apply Hg, Ht]. Qed.

(** Teardown throws at the handle, before anybody is notified. *)
Lemma _cleanup_throws (f : Frame) :
  _transport (this f) <> None ->
  _cleanup P id f =
  (Throw (Raised (XAbort id)), cleanup_frame f, cleanup_effects id (this f)).
Proof.
  intros Ht. rewrite _cleanup_eq. unfold cleanup_outcome. rewrite Hx.
  destruct (_transport (this f)); congruence.
Qed.

Lemma cleanup_frame_transport (f : Frame) :
  _transport (this f) <> None -> _transport (this (cleanup_frame f)) <> None.
Proof. destruct f as [[u d m rw tm key xp fin tim] xhr]. simpl. tauto. Qed.

Lemma mute__cleanup : mute (_cleanup P id).
Proof.
  intros f Ht. rewrite (_cleanup_throws f Ht).
  split; [apply notifications_cleanup | apply cleanup_frame_transport, Ht].
Qed.

Lemma mute__fail (error : jsval) : mute (_fail P id error).
Proof.
  intros f Ht. unfold _fail, bind. rewrite (_cleanup_throws f Ht).
  split; [apply notifications_cleanup | apply cleanup_frame_transport, Ht].
Qed.

Lemma mute__done (response : jsval) : mute (_done P id response).
Proof.
  intros f Ht. unfold _done, bind. rewrite (_cleanup_throws f Ht).
  split; [apply notifications_cleanup | apply cleanup_frame_transport, Ht].
Qed.

Ltac mute_steps :=
  repeat first
    [ apply mute_ret | apply mute_throw | apply mute_get_this
    | apply mute__fail | apply mute__done | apply mute__cleanup
    | apply mute_emit; reflexivity | apply mute_call_out; reflexivity
    | apply mute_bind; [| intros ?]
    | apply mute_try_catch; [| intros ?]
    | match goal with
      | |- mute (if ?b then _ else _) => destruct b
      | |- mute (match ?x with _ => _ end) => destruct x
      end ].

Lemma mute_on_progress (rs st : Z) (txt : string) :
  mute (on_progress P id rs st txt).
Proof.
  unfold on_progress. apply mute_bind.
  - apply mute_set_this. intros [u d m rw tm key [x |] fin tim]; simpl;
      congruence.
  - intros _. unfold _onreadystatechange, read_response, prop. mute_steps.
Qed.

Lemma mute_on_timer : mute (on_timer P id).
Proof.
  unfold on_timer. apply mute_bind; [apply mute_get_this | intros r].
  destruct (_timer r) as [[| |] |]; try apply mute_ret.
  apply mute_bind; [| intros _; apply mute__fail].
  apply mute_set_this. intros [u d m rw tm key xp fin tim]. simpl. tauto.
Qed.

Lemma on_mute {A} (m : M A) (s : State) (r : Request) :
  mute m -> heap s !! id = Some r -> _transport r <> None ->
  notifications (trace (snd (on id m s))) = notifications (trace s).
Proof.
  intros Hm H Ht. rewrite (on_eq _ _ _ _ H). simpl.
  destruct (Hm (mkFrame r (_xhr s)) Ht) as [N _].
  rewrite notifications_app, N. apply app_nil_r.
Qed.

(** X23: when [abort] of the platform handle throws, teardown throws
    before any subscriber is called: no readiness notification and no
    timeout of that request notifies anybody, although a timeout leaves the
    request finished. *)
Theorem throwing_handle_loses_failure (s : State) (r : Request) :
  heap s !! id = Some r -> _transport r <> None ->
  (forall rs st txt,
     notifications (trace (run P (Progress id rs st txt) s)) =
     notifications (trace s)) /\
  notifications (trace (run P (TimerFires id) s)) = notifications (trace s) /\
  (_timer r = Some Pending ->
   exists r', heap (run P (TimerFires id) s) !! id = Some r' /\
              _finished r' = true).
Proof.
  intros H Ht. split; [| split].
  - intros rs st txt. exact (on_mute _ s r (mute_on_progress rs st txt) H Ht).
  - exact (on_mute _ s r mute_on_timer H Ht).
  - intros Htm. simpl. rewrite (on_eq _ _ _ _ H).
    destruct r as [u d m rw tm key [x |] fin tim]; simpl in *;
      [| congruence]; subst tim.
    unfold on_timer. monad. unfold _fail, bind.
    rewrite _cleanup_throws by discriminate.
    eexists. split.
    + simpl. apply list_lookup_insert_eq.
      eapply lookup_lt_Some; eassumption.
    + reflexivity.
Qed.

End Throwing.

(** *** The properties at sample states *)

Lemma server_constructible (t : call -> bool) : constructible (server t).
Proof. exists XMLHttpRequest. reflexivity. Qed.

Lemma send_without_transport_witness :
  on 0 (send no_transport 0) (one_configured no_transport None) =
  (Throw NoTransport, one_configured no_transport None).
Proof.
  eapply (send_without_transport no_transport 0); reflexivity.
Defined.




Lemma send_marks_payload_witness :
  exists r',
    heap (snd (on 0 (send (browser true) 0)
                 (query_example (browser true) "get"))) !! 0%nat = Some r' /\
    data r' = Some [("a b", JStr "1&2"); ("__async__", JBool true)].
Proof.
  edestruct (send_marks_payload (browser true) 0
               (query_example (browser true) "get"))
    as (_ & _ & r' & H & D & _).
  - reflexivity.
  - apply browser_constructible.
  - exists r'. split; [exact H | exact D].
Defined.

Lemma send_zero_timeout_witness :
  trace (run (browser true) (TimerFires 0)
           (run (browser true) (Send 0)
              (one_configured (browser true) (Some 0)))) =
  trace (run (browser true) (Send 0)
           (one_configured (browser true) (Some 0))).
Proof.
  edestruct (send_zero_timeout (browser true) 0
            (one_configured (browser true) (Some 0)))
    as (_ & _ & A).
  - reflexivity.
  - reflexivity.
  - right. reflexivity.
  - apply browser_constructible.
  - exact A.
Defined.

Lemma bad_status_fails_witness :
  exists out,
    trace (run (browser true) (Progress 0 4 404 "for (;;);{}")
             (one_sent (browser true) None)) =
    trace (one_sent (browser true) None) ++ out /\
    In (Call (Invoke 0 Error [JUndefined])) out.
Proof.
  edestruct (bad_status_fails (browser true) 0
               (one_sent (browser true) None))
    with (st := 404) (txt := "for (;;);{}") as (out & E & I & _).
  - reflexivity.
  - discriminate.
  - reflexivity.
  - reflexivity.
  - unfold nominal. lia.
  - exists out. split; [exact E | exact I].
Defined.



Lemma null_response_left_in_flight_witness :
  trace (run (browser true) (Progress 0 4 200 "for (;;);null")
           (one_sent (browser true) (Some 3000))) =
  trace (one_sent (browser true) (Some 3000)) ++ [DeferThrow TypeError] /\
  notifications
    (trace (run (browser true) (TimerFires 0)
              (run (browser true) (Progress 0 4 200 "for (;;);null")
                 (one_sent (browser true) (Some 3000))))) =
  [(0%nat, Error, [JNum (-9000)]); (0%nat, Finally, [])].
Proof.
  erewrite (null_response_left_in_flight (browser true) 0
              (one_sent (browser true) (Some 3000)))
    with (response := JNull); cycle 1.
  - reflexivity.
  - discriminate.
  - reflexivity.
  - unfold nominal. lia.
  - right. split; reflexivity.
  - reflexivity.
  - reflexivity.
  - split; reflexivity.
Defined.



Lemma error_subscriber_throws_twice_witness :
  notifications
    (trace (run (server error_throws) (Progress 0 4 500 "")
              (one_sent (server error_throws) None))) =
  [(0%nat, Error, [JUndefined]); (0%nat, Error, [JUndefined])].
Proof.
  edestruct (error_subscriber_throws_twice (server error_throws) 0
            (one_sent (server error_throws) None))
    with (st := 500) (txt := "") as [A _].
  - reflexivity.
  - discriminate.
  - reflexivity.
  - reflexivity.
  - unfold nominal. lia.
  - reflexivity.
  - exact A.
Defined.


Lemma abort_frees_reused_slot_witness :
  _xhr (slot_reused (browser true)) = [Some 1%nat] /\
  heap (run (browser true) (Abort 0) (slot_reused (browser true))) !! 1%nat
    = heap (slot_reused (browser true)) !! 1%nat /\
  _xhr (run (browser true) (Abort 0) (slot_reused (browser true))) = [None] /\
  exists out,
    trace (shutdown (browser true)
             (run (browser true) (Abort 0) (slot_reused (browser true)))) =
    trace (run (browser true) (Abort 0) (slot_reused (browser true))) ++ out /\
    ~ In (Call (XAbort 1)) out.
Proof.
  split; [reflexivity |].
  edestruct (abort_frees_reused_slot (browser true) 0 1 0
               (slot_reused (browser true))) as (H & _ & T).
  - reflexivity.
  - reflexivity.
  - discriminate.
  - reflexivity.
  - reflexivity.
  - intros [| j] Hj; [congruence | discriminate].
  - split; [exact H | split; [reflexivity | exact T]].
Defined.

Lemma never_reset_witness :
  exists r',
    heap (run (browser true) Shutdown (one_sent (browser true) None))
      !! 0%nat = Some r' /\
    _transport r' <> None.
Proof.
  edestruct (never_reset (browser true) Shutdown 0
               (one_sent (browser true) None)) as (r' & H & _ & T).
  - reflexivity.
  - exists r'. split; [exact H | apply T; discriminate].
Defined.

Lemma reachable_well_formed_witness :
  exists r,
    heap (one_sent (browser true) (Some 3000)) !! 0%nat = Some r /\
    _xhrkey r = Some 0%nat /\ _transport r <> None.
Proof.
  exact (proj1 (reachable_well_formed (browser true) _
                  (one_sent_reachable (browser true) (Some 3000)))
           0%nat 0%nat eq_refl).
Defined.

Lemma throwing_handle_loses_failure_witness :
  throws flaky (XAbort 1) = true /\
  notifications (trace (run flaky (Progress 1 4 500 "") (three_sent flaky)))
    = notifications (trace (three_sent flaky)) /\
  notifications (trace (run flaky (TimerFires 1) (three_sent flaky)))
    = notifications (trace (three_sent flaky)).
Proof.
  split; [reflexivity |].
  edestruct (throwing_handle_loses_failure flaky 1 eq_refl
               (three_sent flaky)) as (A & B & _).
  - reflexivity.
  - discriminate.
  - split; [exact (A 4 500 "") | exact B].
Defined.

End RequestExtras.
